(** * USSD short-code pool: checksum, code parser and allocation handlers

    A shallow embedding of the USSD pool section of the server
    (functions [sumDigits], [digitalRoot], [parseUssdDigits], [fullCode],
    [resolveTarget] and the two POST handlers [assign-next] and
    [bind-from-pool]), of the seeding script and SQL seed, and of the
    [ussd_pool] table with its check constraints.

    Strings are Stdlib strings (8-bit characters); JavaScript numbers that
    occur here are small naturals and are modelled as [nat]; SQL integers
    are modelled as [Z]. *)

From Stdlib Require Import String Ascii List Arith ZArith Lia Bool PeanoNat.
From Stdlib Require Import Sorted Permutation.
From Equations Require Import Equations.
Import ListNotations.
Open Scope string_scope.
Open Scope nat_scope.

(* ===================================================================== *)
(** ** JavaScript string primitives used by the pool code *)
(* ===================================================================== *)

Module JS.

(** The character class [\d] (no [u] flag): exactly '0'..'9'. *)
Definition isDigit (c : ascii) : bool :=
  (48 <=? nat_of_ascii c) && (nat_of_ascii c <=? 57).

(** [Number(c) || 0] for a one-character string [c]: the digit value for
    '0'..'9'; any other character converts to [NaN] (or to 0 for white
    space), and [||] turns both into 0. *)
Definition NumberOr0 (c : ascii) : nat :=
  if isDigit c then nat_of_ascii c - 48 else 0.

Definition digitChar (d : nat) : ascii := ascii_of_nat (48 + d).

(** [String(n)] for a non-negative integer [n]: its decimal numeral. *)
Equations? String_of_nat (n : nat) : string by wf n lt :=
  String_of_nat n with le_lt_dec 10 n := {
    | left _ => String_of_nat (n / 10) ++ String (digitChar (n mod 10)) ""
    | right _ => String (digitChar n) "" }.
Proof. change (n / 10 < n). apply Nat.div_lt; lia. Defined.

(** [c.toUpperCase()] on the letters 'a'..'z'; other characters are kept
    (the level names at stake are ASCII). *)
Definition upperChar (c : ascii) : ascii :=
  if (97 <=? nat_of_ascii c) && (nat_of_ascii c <=? 122)
  then ascii_of_nat (nat_of_ascii c - 32) else c.

Fixpoint toUpperCase (s : string) : string :=
  match s with
  | EmptyString => EmptyString
  | String c s' => String (upperChar c) (toUpperCase s')
  end.

(** A request-body field: absent, [null] or a string. *)
Definition field := option string.

(** [String(v || '')]. *)
Definition orEmpty (v : field) : string :=
  match v with Some s => s | None => "" end.

(** Truthiness of a field: present and not the empty string. *)
Definition truthy (v : field) : option string :=
  match v with
  | Some "" => None
  | Some s => Some s
  | None => None
  end.

(** A JavaScript call that returns or throws [new Error(message)]. *)
Inductive completion (A : Type) : Type :=
| Returned (a : A)
| Thrown (message : string).
Arguments Returned {A} a.
Arguments Thrown {A} message.

End JS.

(* ===================================================================== *)
(** ** Checksum: [sumDigits] and [digitalRoot] *)
(* ===================================================================== *)

Module Checksum.
Import JS.

(** [function sumDigits(str)
      { return (str || '').split('').reduce((a, c) => a + (Number(c) || 0), 0); }] *)
Definition sumDigits (str : string) : nat :=
  fold_left (fun a c => a + NumberOr0 c) (list_ascii_of_string str) 0.

Lemma NumberOr0_digitChar d : d < 10 -> NumberOr0 (digitChar d) = d.
Proof.
  intros H. do 10 (destruct d as [|d]; [reflexivity|]). lia.
Qed.

Lemma fold_add_shift l a :
  fold_left (fun a c => a + NumberOr0 c) l a =
  a + fold_left (fun a c => a + NumberOr0 c) l 0.
Proof.
  revert a. induction l as [|c l IH]; intros a; simpl; [lia|].
  rewrite IH, (IH (NumberOr0 c)). lia.
Qed.

Lemma list_ascii_app s t :
  list_ascii_of_string (s ++ t) =
  (list_ascii_of_string s ++ list_ascii_of_string t)%list.
Proof. induction s; simpl; congruence. Qed.

Lemma sumDigits_app s t : sumDigits (s ++ t) = sumDigits s + sumDigits t.
Proof.
  unfold sumDigits. rewrite list_ascii_app, fold_left_app.
  apply fold_add_shift.
Qed.

Lemma sumDigits_cons c s : sumDigits (String c s) = NumberOr0 c + sumDigits s.
Proof. unfold sumDigits. simpl. apply fold_add_shift. Qed.

Lemma String_of_nat_eq n :
  String_of_nat n =
  if n <? 10 then String (digitChar n) ""
  else String_of_nat (n / 10) ++ String (digitChar (n mod 10)) "".
Proof.
  rewrite String_of_nat_equation_1.
  destruct (le_lt_dec 10 n) as [H|H].
  - rewrite String_of_nat_clause_1_equation_1.
    apply Nat.ltb_ge in H. now rewrite H.
  - rewrite String_of_nat_clause_1_equation_2.
    apply Nat.ltb_lt in H. now rewrite H.
Qed.

(** The digit sum of a numeral: never larger than the number, strictly
    smaller from 10 on, positive for a positive number, and congruent to
    the number modulo 9. *)
Lemma sumDigits_String_of_nat n :
  sumDigits (String_of_nat n) <= n /\
  (9 < n -> sumDigits (String_of_nat n) < n) /\
  (0 < n -> 0 < sumDigits (String_of_nat n)) /\
  (sumDigits (String_of_nat n)) mod 9 = n mod 9.
Proof.
  induction n as [n IH] using lt_wf_ind.
  rewrite String_of_nat_eq.
  destruct (Nat.ltb_spec n 10) as [Hlt|Hge].
  - rewrite sumDigits_cons, NumberOr0_digitChar by lia.
    change (sumDigits "") with 0. rewrite Nat.add_0_r. repeat split; lia.
  - assert (Hq : n / 10 < n) by (apply Nat.div_lt; lia).
    destruct (IH _ Hq) as (Hle & _ & Hpos & Hmod). clear IH Hq.
    rewrite sumDigits_app, sumDigits_cons.
    rewrite NumberOr0_digitChar by (apply Nat.mod_upper_bound; lia).
    change (sumDigits "") with 0. rewrite Nat.add_0_r.
    pose proof (Nat.div_mod_eq n 10) as E.
    assert (Hq : 0 < n / 10) by (apply Nat.div_str_pos; lia).
    specialize (Hpos Hq).
    generalize dependent (sumDigits (String_of_nat (n / 10))).
    generalize dependent (n mod 10). generalize dependent (n / 10).
    intros q Hq r E sd Hle Hpos Hmod. subst n.
    split; [lia|]. split; [lia|]. split; [lia|].
    rewrite Nat.Div0.add_mod, Hmod, <- Nat.Div0.add_mod.
    replace (10 * q + r) with (q + r + q * 9) by lia.
    now rewrite Nat.Div0.mod_add.
Qed.

(** The loop [while (s > 9) s = sumDigits(String(s));] of [digitalRoot]:
    it terminates because the digit sum of a number above 9 is smaller
    than the number. *)
Equations? digitalRoot_loop (s : nat) : nat by wf s lt :=
  digitalRoot_loop s with le_lt_dec s 9 := {
    | left _ => s
    | right _ => digitalRoot_loop (sumDigits (String_of_nat s)) }.
Proof. apply sumDigits_String_of_nat. assumption. Defined.

(** Server: [function digitalRoot(n)
      { let s = sumDigits(String(n)); while (s > 9) s = sumDigits(String(s)); return s; }]
    It is called on a string ([parsed.base]), on which [String] is the
    identity. *)
Definition digitalRoot (n : string) : nat := digitalRoot_loop (sumDigits n).

(** Seeding script: the same loop, [return String(s)]. *)
Definition seed_digitalRoot (n : string) : string :=
  String_of_nat (digitalRoot_loop (sumDigits n)).

(** A call of [digitalRoot] on a string: neither [sumDigits] nor
    [digitalRoot] contains a [throw], and [split], [reduce], [Number] and
    [String] do not throw on strings and numbers, so the call returns. *)
Definition digitalRoot_call (n : string) : completion nat :=
  Returned (digitalRoot n).

(** [const want = String(digitalRoot(parsed.base));] of bind-from-pool. *)
Definition bind_want (base : string) : string := String_of_nat (digitalRoot base).

End Checksum.

(* ===================================================================== *)
(** ** The SQL seeds and the check constraints of [ussd_pool] *)
(* ===================================================================== *)

Module Sql.
Import JS.

(** [s ~ '^\d+$'] *)
Definition all_digits (s : string) : bool :=
  match s with
  | EmptyString => false
  | _ => forallb isDigit (list_ascii_of_string s)
  end.

(** [(s)::int] on a string of digits (the cast is only reached on such
    strings: a character that is not a digit would make the statement
    fail). *)
Definition int_of_text (s : string) : Z :=
  fold_left (fun a c => (10 * a + Z.of_nat (NumberOr0 c))%Z)
            (list_ascii_of_string s) 0%Z.

(** [(z)::text] on a non-negative integer. *)
Definition text_of_int (z : Z) : string := String_of_nat (Z.to_nat z).

(** The [digital_root] CTE of [seed_ussd_pool.sql]:
    [case when (base_txt ~ '^\d+$') is false then '0'
          else case when (base_txt)::int = 0 then '0'
                    else (1 + (((base_txt)::int - 1) % 9))::text end end]. *)
Definition seed_checksum (base_txt : string) : string :=
  if negb (all_digits base_txt) then "0"
  else if (int_of_text base_txt =? 0)%Z then "0"
       else text_of_int (1 + Z.rem (int_of_text base_txt - 1) 9)%Z.

(** [substring(base from k for 1)::int] *)
Definition digit_at (k : nat) (base : string) : Z :=
  match String.get (k - 1) base with
  | Some c => Z.of_nat (NumberOr0 c)
  | None => 0%Z
  end.

(** Constraint [ussd_base_format]: [base ~ '^[0-9]{3}$' and base <> '000']. *)
Definition ussd_base_format (base : string) : bool :=
  (String.length base =? 3) && forallb isDigit (list_ascii_of_string base)
  && negb (base =? "000")%string.

(** Constraint [ussd_checksum_format]: [checksum ~ '^[1-9]$']. *)
Definition ussd_checksum_format (checksum : string) : bool :=
  match checksum with
  | String c EmptyString => isDigit c && negb (c =? "0")%char
  | _ => false
  end.

(** Constraint [ussd_checksum_matches_base]:
    [(checksum)::int = (((d1 + d2 + d3) - 1) % 9) + 1]. *)
Definition ussd_checksum_matches_base (base checksum : string) : bool :=
  (int_of_text checksum =?
   Z.rem (digit_at 1 base + digit_at 2 base + digit_at 3 base - 1) 9 + 1)%Z.

(** SQL truth values: [None] is NULL. *)
Definition tvl := option bool.

Definition and3 (a b : tvl) : tvl :=
  match a, b with
  | Some false, _ | _, Some false => Some false
  | Some true, Some true => Some true
  | _, _ => None
  end.

Definition or3 (a b : tvl) : tvl :=
  match a, b with
  | Some true, _ | _, Some true => Some true
  | Some false, Some false => Some false
  | _, _ => None
  end.

(** A CHECK constraint rejects a row only when it evaluates to FALSE. *)
Definition check_passes (v : tvl) : bool :=
  match v with Some false => false | _ => true end.

End Sql.

(* ===================================================================== *)
(** ** The code parser and formatter *)
(* ===================================================================== *)

Module Parser.
Import JS.

(** The lookahead [(?=#|$)]: the next character is '#', or the input ends
    ([$] without the [m] flag). *)
Definition lookahead (rest : string) : bool :=
  match rest with
  | EmptyString => true
  | String c _ => (c =? "#")%char
  end.

(** One attempt of [/(\d{3})(\d)(?=#|$)/] anchored at the start of [s]. *)
Definition match_here (s : string) : option (string * string) :=
  match s with
  | String a (String b (String c (String d rest))) =>
      if isDigit a && isDigit b && isDigit c && isDigit d && lookahead rest
      then Some (String a (String b (String c "")), String d "")
      else None
  | _ => None
  end.

(** [function parseUssdDigits(ussd)
      { const m = String(ussd).match(/(\d{3})(\d)(?=#|$)/);
        if (!m) return null; return { base: m[1], check: m[2] }; }]
    [match] without the [g] flag tries the pattern at each start position
    from the left and returns the first success; the pattern has no
    alternative of different length, so one attempt per position. *)
Fixpoint parseUssdDigits (ussd : string) : option (string * string) :=
  match match_here ussd with
  | Some m => Some m
  | None =>
      match ussd with
      | EmptyString => None
      | String _ rest => parseUssdDigits rest
      end
  end.

(** [function fullCode(prefix, base, check)
      { const p = prefix || '*001*'; return `${p}${base}${check}#`; }] *)
Definition fullCode (prefix : field) (base check : string) : string :=
  let p := match truthy prefix with Some p => p | None => "*001*" end in
  p ++ base ++ check ++ "#".

End Parser.

(* ===================================================================== *)
(** ** The [ussd_pool] table and the three statements the handlers issue *)
(* ===================================================================== *)

Module Pool.
Import JS Sql.

(** Column [level text check (level in ('MATATU','SACCO','CASHIER'))]. *)
Inductive level_t : Type := SACCO | MATATU | CASHIER.

Definition level_eqb (a b : level_t) : bool :=
  match a, b with
  | SACCO, SACCO | MATATU, MATATU | CASHIER, CASHIER => true
  | _, _ => false
  end.

(** One row of [ussd_pool]; [None] is SQL NULL. *)
Record row : Type := mkRow {
  base : string;
  checksum : string;
  allocated : bool;
  level : option level_t;
  sacco_id : option string;
  matatu_id : option string;
  cashier_id : option string;
  allocated_at : option nat
}.

(** The table; [base] is its primary key. *)
Definition table := list row.

Definition primary_key (t : table) : Prop := NoDup (map base t).

(** A row as the seeds insert it: [(base, checksum, allocated = false)]. *)
Definition seeded_row (b c : string) : row :=
  mkRow b c false None None None None None.

(** [level = 'X'] in SQL: NULL when [level] is NULL. *)
Definition level_is (r : row) (l : level_t) : tvl :=
  match level r with
  | Some l' => Some (level_eqb l' l)
  | None => None
  end.

Definition is_null {A} (v : option A) : tvl :=
  Some (match v with None => true | Some _ => false end).

Definition is_not_null {A} (v : option A) : tvl :=
  Some (match v with None => false | Some _ => true end).

(** Constraint [ussd_allocated_fields]. *)
Definition ussd_allocated_fields (r : row) : bool :=
  check_passes
    (or3
       (and3 (Some (negb (allocated r)))
          (and3 (is_null (level r))
             (and3 (is_null (sacco_id r))
                (and3 (is_null (matatu_id r)) (is_null (cashier_id r))))))
       (and3 (Some (allocated r))
          (or3
             (or3
                (and3 (level_is r SACCO)
                   (and3 (is_not_null (sacco_id r))
                      (and3 (is_null (matatu_id r)) (is_null (cashier_id r)))))
                (and3 (level_is r MATATU)
                   (and3 (is_not_null (matatu_id r))
                      (and3 (is_null (sacco_id r)) (is_null (cashier_id r))))))
             (and3 (level_is r CASHIER)
                (and3 (is_not_null (cashier_id r))
                   (and3 (is_null (sacco_id r)) (is_null (matatu_id r)))))))).

(** The three format constraints on [base] and [checksum]. *)
Definition row_format (r : row) : bool :=
  ussd_base_format (base r) && ussd_checksum_format (checksum r)
  && ussd_checksum_matches_base (base r) (checksum r).

(** [.order('base', { ascending: true })]: insertion into a list sorted by
    [base] as text. *)
Fixpoint insert_by_base (r : row) (l : list row) : list row :=
  match l with
  | [] => [r]
  | x :: l' =>
      if String.leb (base r) (base x) then r :: l
      else x :: insert_by_base r l'
  end.

Definition order_by_base (l : list row) : list row :=
  fold_right insert_by_base [] l.

(** [.eq('allocated', false)] *)
Definition unallocated (t : table) : list row :=
  filter (fun r => negb (allocated r)) t.

(** [sb.from('ussd_pool').select('base, checksum').eq('allocated', false)
      .order('base', { ascending: true }).limit(1).maybeSingle()] *)
Definition select_next_free (t : table) : option (string * string) :=
  match order_by_base (unallocated t) with
  | [] => None
  | r :: _ => Some (base r, checksum r)
  end.

(** [sb.from('ussd_pool').select('allocated, checksum').eq('base', b)
      .maybeSingle()]; [base] is the primary key, so at most one row
    matches. *)
Definition select_by_base (b : string) (t : table) : option (bool * string) :=
  match find (fun r => (base r =? b)%string) t with
  | Some r => Some (allocated r, checksum r)
  | None => None
  end.

(** The value of the [.update({...})] of both handlers:
    [{ allocated: true, level: assigned_type,
       sacco_id:   assigned_type === 'SACCO'   ? assigned_id : null,
       matatu_id:  assigned_type === 'MATATU'  ? assigned_id : null,
       cashier_id: assigned_type === 'CASHIER' ? assigned_id : null,
       allocated_at: new Date().toISOString() }] *)
Definition claim_row (assigned_type : level_t) (assigned_id : string)
    (now : nat) (r : row) : row :=
  mkRow (base r) (checksum r) true (Some assigned_type)
    (if level_eqb assigned_type SACCO then Some assigned_id else None)
    (if level_eqb assigned_type MATATU then Some assigned_id else None)
    (if level_eqb assigned_type CASHIER then Some assigned_id else None)
    (Some now).

(** [sbAdmin.from('ussd_pool').update({...}).eq('base', b)]: every row
    whose [base] is [b] is overwritten, whatever its [allocated] flag. *)
Definition update_by_base (b : string) (assigned_type : level_t)
    (assigned_id : string) (now : nat) (t : table) : table :=
  map (fun r => if (base r =? b)%string
                then claim_row assigned_type assigned_id now r else r) t.

(** GET [/api/admin/ussd/pool/available]: the unallocated rows by
    ascending [base]. *)
Definition pool_available (t : table) : list (string * string) :=
  map (fun r => (base r, checksum r)) (order_by_base (unallocated t)).

(** The row stored for [b], if any. *)
Definition slot (b : string) (t : table) : option row :=
  find (fun r => (base r =? b)%string) t.

End Pool.

(* ===================================================================== *)
(** ** The handlers, as programs over the store *)
(* ===================================================================== *)

Module Server.
Import JS Checksum Parser Pool.

(** The body of a POST request, and the clock reading the handler makes
    when it builds its update ([new Date().toISOString()]).  An absent
    [ussd_code] reads as the string "undefined" under [String(ussd)]. *)
Record request : Type := mkReq {
  rq_level : field;
  rq_sacco_id : field;
  rq_matatu_id : field;
  rq_cashier_id : field;
  rq_prefix : field;
  rq_ussd_code : string;
  rq_now : nat
}.

(** What the handler sends: [res.json({ success: true, ... ussd_code })]
    or [res.status(n).json({ success: false, error })]. *)
Inductive response : Type :=
| Success (ussd_code : string)
| Failure (status : nat) (error : string).

(** [function resolveTarget(level, ids) {
       const L = String(level || '').toUpperCase();
       if (L === 'MATATU' && ids.matatu_id) return { assigned_type: 'MATATU', assigned_id: ids.matatu_id };
       if (L === 'SACCO' && ids.sacco_id) return { assigned_type: 'SACCO', assigned_id: ids.sacco_id };
       throw new Error('level must be SACCO or MATATU (CASHIER no longer supported)'); }] *)
Definition resolveTarget (level sacco_id matatu_id : field)
  : completion (level_t * string) :=
  let L := toUpperCase (orEmpty level) in
  match (L =? "MATATU")%string, truthy matatu_id with
  | true, Some id => Returned (MATATU, id)
  | _, _ =>
      match (L =? "SACCO")%string, truthy sacco_id with
      | true, Some id => Returned (SACCO, id)
      | _, _ =>
          Thrown "level must be SACCO or MATATU (CASHIER no longer supported)"
      end
  end.

(** [function sanitizeErr(e) { const m = ...; return m.length > 300 ? m.slice(0, 300) + '...' : m; }]
    (the source appends a one-character ellipsis, U+2026). *)
Definition sanitizeErr (m : string) : string :=
  if 300 <? String.length m
  then String.substring 0 300 m
       ++ String (ascii_of_nat 226) (String (ascii_of_nat 128)
            (String (ascii_of_nat 166) ""))
  else m.

(** Programs: a handler is a sequence of awaited statements on the store,
    each of which the database runs atomically, ending in a response. *)
Inductive prog (A : Type) : Type :=
| Ret (a : A)
| SelectNextFree (k : option (string * string) -> prog A)
| SelectByBase (b : string) (k : option (bool * string) -> prog A)
| UpdateByBase (b : string) (assigned_type : level_t) (assigned_id : string)
    (now : nat) (k : prog A).
Arguments Ret {A} a.
Arguments SelectNextFree {A} k.
Arguments SelectByBase {A} b k.
Arguments UpdateByBase {A} b assigned_type assigned_id now k.

(** POST [/api/admin/ussd/pool/assign-next]. *)
Definition assign_next (rq : request) : prog response :=
  let L := toUpperCase (orEmpty (rq_level rq)) in
  if (L =? "CASHIER")%string
  then Ret (Failure 400 "CASHIER level no longer supported")
  else
    match resolveTarget (rq_level rq) (rq_sacco_id rq) (rq_matatu_id rq) with
    | Thrown m => Ret (Failure 500 m)
    | Returned (assigned_type, assigned_id) =>
        SelectNextFree (fun nextFree =>
          match nextFree with
          | None => Ret (Failure 400 "no free codes in pool")
          | Some (b, c) =>
              UpdateByBase b assigned_type assigned_id (rq_now rq)
                (Ret (Success (fullCode (rq_prefix rq) b c)))
          end)
    end.

(** POST [/api/admin/ussd/bind-from-pool]. *)
Definition bind_from_pool (rq : request) : prog response :=
  let L := toUpperCase (orEmpty (rq_level rq)) in
  if (L =? "CASHIER")%string
  then Ret (Failure 400 "CASHIER level no longer supported")
  else
    match resolveTarget (rq_level rq) (rq_sacco_id rq) (rq_matatu_id rq) with
    | Thrown m => Ret (Failure 500 (sanitizeErr m))
    | Returned (assigned_type, assigned_id) =>
        match parseUssdDigits (rq_ussd_code rq) with
        | None => Ret (Failure 400 "invalid code format")
        | Some (pbase, pcheck) =>
            let want := String_of_nat (digitalRoot pbase) in
            if negb (want =? pcheck)%string
            then Ret (Failure 400 ("checksum mismatch; expected " ++ want))
            else
              SelectByBase pbase (fun data =>
                match data with
                | None => Ret (Failure 400 "base not in pool")
                | Some (true, _) => Ret (Failure 400 "already allocated")
                | Some (false, _) =>
                    UpdateByBase pbase assigned_type assigned_id (rq_now rq)
                      (Ret (Success (fullCode (rq_prefix rq) pbase pcheck)))
                end)
        end
    end.

(** The statements a run sent to the store. *)
Inductive access : Type :=
| ReadNextFree
| ReadByBase (b : string)
| WriteByBase (b : string).

(** One awaited statement: the database executes it on the current table
    and the handler continues with the answer. *)
Definition step {A} (p : prog A) (t : table) : prog A * table * list access :=
  match p with
  | Ret a => (Ret a, t, [])
  | SelectNextFree k => (k (select_next_free t), t, [ReadNextFree])
  | SelectByBase b k => (k (select_by_base b t), t, [ReadByBase b])
  | UpdateByBase b ty id now k =>
      (k, update_by_base b ty id now t, [WriteByBase b])
  end.

(** A handler run alone, from its first statement to its response. *)
Fixpoint run {A} (p : prog A) (t : table) : A * table * list access :=
  match p with
  | Ret a => (a, t, [])
  | SelectNextFree k =>
      let '(a, t', l) := run (k (select_next_free t)) t in
      (a, t', ReadNextFree :: l)
  | SelectByBase b k =>
      let '(a, t', l) := run (k (select_by_base b t)) t in
      (a, t', ReadByBase b :: l)
  | UpdateByBase b ty id now k =>
      let '(a, t', l) := run k (update_by_base b ty id now t) in
      (a, t', WriteByBase b :: l)
  end.

Definition result_of {A} (o : A * table * list access) : A := fst (fst o).
Definition table_of {A} (o : A * table * list access) : table := snd (fst o).
Definition log_of {A} (o : A * table * list access) : list access := snd o.

(** Two requests in flight at once: the store and what is left of each
    handler.  A schedule says whose next statement the database runs. *)
Inductive caller : Type := CallerA | CallerB.

Record config : Type := mkConfig {
  store : table;
  left_A : prog response;
  left_B : prog response
}.

Definition sched_step (c : caller) (cf : config) : config :=
  match c with
  | CallerA =>
      let '(p, t, _) := step (left_A cf) (store cf) in
      mkConfig t p (left_B cf)
  | CallerB =>
      let '(p, t, _) := step (left_B cf) (store cf) in
      mkConfig t (left_A cf) p
  end.

Definition run_sched (s : list caller) (cf : config) : config :=
  fold_left (fun cf c => sched_step c cf) s cf.

(** The response a caller has received, once its handler has finished. *)
Definition responded (p : prog response) : option response :=
  match p with Ret r => Some r | _ => None end.

End Server.

(* ===================================================================== *)
(** * The example pool of the spec and its scenarios *)
(* ===================================================================== *)

Module Example.
Import JS Pool Server.

(** Bases 110, 115 and 120 free; 105 already held by a SACCO. *)
Definition pool : table :=
  [ seeded_row "120" "3";
    mkRow "105" "6" true (Some SACCO) (Some "S0") None None (Some 1);
    seeded_row "110" "2";
    seeded_row "115" "7" ].

Definition sacco_A1 : request :=
  mkReq (Some "SACCO") (Some "A1") None None None "undefined" 10.

Definition matatu_M1_bind (code : string) : request :=
  mkReq (Some "matatu") None (Some "M1") None None code 20.

Definition sacco_A1_bind (code : string) : request :=
  mkReq (Some "SACCO") (Some "A1") None None None code 10.

Definition cashier_C1 : request :=
  mkReq (Some "Cashier") None None (Some "C1") None "*001*1102#" 30.

End Example.

(* ===================================================================== *)
(** * The vocabulary of the statements *)
(* ===================================================================== *)

Section Vocabulary.
Import JS Checksum Sql Parser Pool Server.

(** The closed form of the spec: 0 for 0, else [1 + ((s - 1) mod 9)]. *)
Definition closed_form (s : nat) : nat :=
  if s =? 0 then 0 else 1 + (s - 1) mod 9.

(** The three-character string with the given decimal digits. *)
Definition base_of_digits (d1 d2 d3 : nat) : string :=
  String (digitChar d1) (String (digitChar d2) (String (digitChar d3) "")).

(** The inputs the spec calls malformed: a character that is not a digit,
    or a length other than 3. *)
Definition malformed_base (b : string) : bool :=
  negb ((String.length b =? 3)
        && forallb JS.isDigit (list_ascii_of_string b)).

(** [s] holds, from offset [i], three digits [b], a fourth digit [c], and
    then either nothing or a '#'. *)
Definition occurs_at (s : string) (i : nat) (b c : string) : Prop :=
  exists pre d1 d2 d3 d4 post,
    s = pre ++ String d1 (String d2 (String d3 (String d4 post))) /\
    String.length pre = i /\
    isDigit d1 = true /\ isDigit d2 = true /\ isDigit d3 = true /\
    isDigit d4 = true /\
    (post = "" \/ exists post', post = String "#" post') /\
    b = String d1 (String d2 (String d3 "")) /\ c = String d4 "".

(** The first row of a list is not above any row of the list. *)
Definition head_least (l : list row) : Prop :=
  match l with
  | [] => True
  | r :: _ => forall x, In x l -> String.leb (base r) (base x) = true
  end.

(** The two answers to an unsupported level: the explicit CASHIER guard
    (status 400), and the error [resolveTarget] throws for any other
    level, which the handler's [catch] sends with status 500. *)
Definition unsupported_level_response (L : string) : response :=
  if (L =? "CASHIER")%string
  then Failure 400 "CASHIER level no longer supported"
  else Failure 500 "level must be SACCO or MATATU (CASHIER no longer supported)".

(** A prefix without the terminator character. *)
Definition no_hash (p : string) : bool :=
  forallb (fun x => negb (x =? "#")%char) (list_ascii_of_string p).

(** Every update a program may still send carries a target satisfying
    [P]. *)
Inductive updates_satisfy {A} (P : level_t -> string -> nat -> Prop)
  : prog A -> Prop :=
| us_Ret : forall a, updates_satisfy P (Ret a)
| us_SelectNextFree : forall k,
    (forall x, updates_satisfy P (k x)) -> updates_satisfy P (SelectNextFree k)
| us_SelectByBase : forall b k,
    (forall x, updates_satisfy P (k x)) -> updates_satisfy P (SelectByBase b k)
| us_UpdateByBase : forall b ty id now k,
    P ty id now -> updates_satisfy P k ->
    updates_satisfy P (UpdateByBase b ty id now k).

(** The only target a handler writes is the one its request resolves
    to, stamped with the request's clock reading. *)
Definition own_target (ty : level_t) (id : string) (now : nat)
  : level_t -> string -> nat -> Prop :=
  fun ty' id' now' => ty' = ty /\ id' = id /\ now' = now.

(** The two POST handlers of the pool. *)
Definition handler (h : request -> prog response) : Prop :=
  h = assign_next \/ h = bind_from_pool.

(** No handler ever writes the retired level. *)
Definition live_level : level_t -> string -> nat -> Prop :=
  fun ty _ _ => ty <> CASHIER.

(** The invariant of a slot: unallocated exactly when the level and both
    identifiers are empty; when allocated, the identifier of its level is
    set and the other one is empty. *)
Definition slot_inv (r : row) : Prop :=
  (allocated r = false <->
   level r = None /\ sacco_id r = None /\ matatu_id r = None) /\
  (allocated r = true ->
   (level r = Some SACCO /\ sacco_id r <> None /\ matatu_id r = None) \/
   (level r = Some MATATU /\ matatu_id r <> None /\ sacco_id r = None)).

(** The outcome of one handler run alone: either it writes nothing, or it
    writes exactly one base, whose row it had read as unallocated. *)
Definition writes_nothing (o : response * table * list access) (t : table)
  : Prop :=
  table_of o = t /\
  (forall b, ~ In (WriteByBase b) (log_of o)) /\
  (forall code, result_of o <> Success code) /\
  (forall b, In (ReadByBase b) (log_of o) ->
             forall r, slot b t = Some r ->
                       allocated r = true /\
                       result_of o = Failure 400 "already allocated").

Definition writes_base (o : response * table * list access) (t : table)
    (ty : level_t) (id : string) (now : nat) (b : string) : Prop :=
  (exists r, In r t /\ base r = b /\ allocated r = false) /\
  table_of o = update_by_base b ty id now t /\
  (exists code, result_of o = Success code) /\
  (forall b', In (WriteByBase b') (log_of o) -> b' = b) /\
  (forall b', In (ReadByBase b') (log_of o) -> b' = b).

(** A row of the running table against the row it started as: untouched,
    or carrying all of A's target, or all of B's. *)
Definition untouched_or_whole (tyA tyB : level_t) (idA idB : string)
    (nowA nowB : nat) (r0 r : row) : Prop :=
  r = r0 \/ r = claim_row tyA idA nowA r0 \/ r = claim_row tyB idB nowB r0.

End Vocabulary.

(* ===================================================================== *)
(** * Further code of the server: listings, the admin gate, batches *)
(* ===================================================================== *)

Module Listing.
Import JS Parser Pool Server.

(** [const prefix = req.query.prefix || '*001*';] *)
Definition query_prefix (prefix : field) : string :=
  match truthy prefix with Some p => p | None => "*001*" end.

(** One item of GET [/api/admin/ussd/pool/available]:
    [{ base: r.base, checksum: r.checksum, full_code: fullCode(prefix, r.base, r.checksum) }]. *)
Record available_item : Type := mkAvailable {
  av_base : string;
  av_checksum : string;
  av_full_code : string
}.

(** GET [/api/admin/ussd/pool/available]:
    [select('base, checksum').eq('allocated', false).order('base')], each
    row mapped to its item. *)
Definition available (prefix : field) (t : table) : list available_item :=
  let prefix := query_prefix prefix in
  map (fun r => mkAvailable (base r) (checksum r)
                  (fullCode (Some prefix) (base r) (checksum r)))
      (order_by_base (unallocated t)).

(** [ORDER BY allocated_at DESC]: a later time first, NULL before every
    time (the default NULLS FIRST of a descending order). *)
Definition at_or_after (a b : option nat) : bool :=
  match a, b with
  | None, _ => true
  | Some _, None => false
  | Some x, Some y => y <=? x
  end.

Fixpoint insert_by_time (r : row) (l : list row) : list row :=
  match l with
  | [] => [r]
  | x :: l' =>
      if at_or_after (allocated_at r) (allocated_at x) then r :: l
      else x :: insert_by_time r l'
  end.

Definition order_by_time_desc (l : list row) : list row :=
  fold_right insert_by_time [] l.

(** One item of GET [/api/admin/ussd/pool/allocated]. *)
Record allocated_item : Type := mkAllocated {
  al_full_code : string;
  al_level : option level_t;
  al_sacco_id : option string;
  al_matatu_id : option string;
  al_allocated_at : option nat
}.

(** GET [/api/admin/ussd/pool/allocated]:
    [select('base, checksum, level, sacco_id, matatu_id, allocated_at')
       .eq('allocated', true).order('allocated_at', { ascending: false })]. *)
Definition allocated_list (prefix : field) (t : table) : list allocated_item :=
  let prefix := query_prefix prefix in
  map (fun r => mkAllocated (fullCode (Some prefix) (base r) (checksum r))
                  (level r) (sacco_id r) (matatu_id r) (allocated_at r))
      (order_by_time_desc (filter allocated t)).

(** [function requireAdmin(req, res, next) {
       const token = req.headers['x-admin-token'] || '';
       if (!token || token !== ADMIN_TOKEN)
         return res.status(401).json({ success: false, error: 'Unauthorized' });
       next(); }]
    in front of a handler. *)
Definition requireAdmin (ADMIN_TOKEN : string) (header : field)
    (next : prog response) : prog response :=
  let token := orEmpty header in
  if (token =? "")%string || negb (token =? ADMIN_TOKEN)%string
  then Ret (Failure 401 "Unauthorized")
  else next.

(** A batch of assign-next requests served one after the other. *)
Fixpoint assign_all (rqs : list request) (t : table)
  : list response * table :=
  match rqs with
  | [] => ([], t)
  | rq :: rest =>
      let o := run (assign_next rq) t in
      let '(rs, t') := assign_all rest (table_of o) in
      (result_of o :: rs, t')
  end.

End Listing.

(* ===================================================================== *)
(** * The seeding script and the SQL seeds *)
(* ===================================================================== *)

Module Seed.
Import JS Checksum Sql Pool.

(** [String(i)] for an integer [i]. *)
Definition String_of_Z (z : Z) : string :=
  if (z <? 0)%Z then String "-" (String_of_nat (Z.to_nat (- z)))
  else String_of_nat (Z.to_nat z).

Fixpoint repeat_char (c : ascii) (n : nat) : string :=
  match n with
  | 0 => ""
  | S n' => String c (repeat_char c n')
  end.

(** [s.padStart(n, c)] with a one-character filler: [s] itself when it is
    long enough, else filled on the left up to [n] characters. *)
Definition padStart (n : nat) (c : ascii) (s : string) : string :=
  repeat_char c (n - String.length s) ++ s.

(** [s.toLowerCase()] on the letters 'A'..'Z'. *)
Definition lowerChar (c : ascii) : ascii :=
  if (65 <=? nat_of_ascii c) && (nat_of_ascii c <=? 90)
  then ascii_of_nat (nat_of_ascii c + 32) else c.

Fixpoint toLowerCase (s : string) : string :=
  match s with
  | EmptyString => EmptyString
  | String c s' => String (lowerChar c) (toLowerCase s')
  end.

(** An environment variable read as a number: unset or empty ([None]), or
    set, with what [parseInt(value, 10)] makes of it ([None] inside for
    NaN). *)
Definition env_number := option (option Z).

(** [const startRaw = parseInt(process.env.SEED_START || defStart, 10);]
    with [defStart = envName === 'staging' ? '300' : '110'] and
    [envName = String(process.env.SEED_ENV || '').toLowerCase()]. *)
Definition startRaw (SEED_ENV : field) (SEED_START : env_number) : option Z :=
  let envName := toLowerCase (orEmpty SEED_ENV) in
  match SEED_START with
  | Some v => v
  | None => if (envName =? "staging")%string then Some 300%Z else Some 110%Z
  end.

(** [const countRaw = parseInt(process.env.SEED_COUNT || defCount, 10);]
    with [defCount = envName === 'staging' ? '30' : '30']. *)
Definition countRaw (SEED_ENV : field) (SEED_COUNT : env_number) : option Z :=
  let envName := toLowerCase (orEmpty SEED_ENV) in
  match SEED_COUNT with
  | Some v => v
  | None => if (envName =? "staging")%string then Some 30%Z else Some 30%Z
  end.

(** [const safeStart = Number.isFinite(startRaw) ? startRaw : 110;] *)
Definition safeStart (startRaw : option Z) : Z :=
  match startRaw with Some z => z | None => 110%Z end.

(** [const safeCount = Number.isFinite(countRaw) && countRaw > 0 ? countRaw : 30;] *)
Definition safeCount (countRaw : option Z) : Z :=
  match countRaw with
  | Some z => if (0 <? z)%Z then z else 30%Z
  | None => 30%Z
  end.

(** The body of the loop:
    [const base = String(i).padStart(3, '0');
     rows.push({ base, checksum: digitalRoot(base), allocated: false });] *)
Definition seed_row (i : Z) : row :=
  let base := padStart 3 "0" (String_of_Z i) in
  seeded_row base (seed_digitalRoot base).

(** [for (let i = safeStart; i < safeStart + safeCount; i++) ...] *)
Definition rows_from (start count : Z) : list row :=
  map (fun k => seed_row (start + Z.of_nat k)) (seq 0 (Z.to_nat count)).

Definition rows (SEED_ENV : field) (SEED_START SEED_COUNT : env_number)
  : list row :=
  rows_from (safeStart (startRaw SEED_ENV SEED_START))
            (safeCount (countRaw SEED_ENV SEED_COUNT)).

(** [lpad(s, n, c)] of PostgreSQL with a one-character filler: filled on
    the left up to [n] characters, and cut to its first [n] characters
    when longer. *)
Definition lpad (s : string) (n : nat) (c : ascii) : string :=
  if n <=? String.length s then String.substring 0 n s
  else repeat_char c (n - String.length s) ++ s.

(** [generate_series(a, b)] *)
Definition generate_series (a b : Z) : list Z :=
  map (fun k => (a + Z.of_nat k)%Z) (seq 0 (Z.to_nat (b - a + 1))).

(** The seed at the end of the schema:
    [select lpad(n::text, 3, '0') as base, (((n - 1) % 9) + 1)::text as checksum
     from generate_series(1, 999) as t(n)]; the columns that are not
    listed take their defaults. *)
Definition schema_row (n : Z) : row :=
  seeded_row (lpad (text_of_int n) 3 "0") (text_of_int (Z.rem (n - 1) 9 + 1)).

Definition schema_rows : list row := map schema_row (generate_series 1 999).

(** [seed_ussd_pool.sql]: the bases of [generate_series(110, 139)], each
    with the checksum of the [digital_root] CTE. *)
Definition pool_row (g : Z) : row :=
  let base_txt := lpad (text_of_int g) 3 "0" in
  seeded_row base_txt (seed_checksum base_txt).

Definition pool_rows : list row := map pool_row (generate_series 110 139).

(** All the CHECK constraints of the table on one row. *)
Definition row_ok (r : row) : bool := row_format r && ussd_allocated_fields r.

Definition has_base (b : string) (t : table) : bool :=
  existsb (fun x => (base x =? b)%string) t.

(** [insert into ussd_pool ... on conflict (base) do nothing]: the rows are
    taken in order; a row that fails a CHECK constraint aborts the
    statement ([None]), a row whose base exists is skipped, any other row
    is added. *)
Fixpoint insert_do_nothing (new : list row) (t : table) : option table :=
  match new with
  | [] => Some t
  | r :: rest =>
      if negb (row_ok r) then None
      else if has_base (base r) t then insert_do_nothing rest t
           else insert_do_nothing rest ((t ++ [r])%list)
  end.

(** What the upsert of the script makes of an existing row: the three
    columns of the payload are overwritten, the others are kept. *)
Definition merge_row (old new : row) : row :=
  mkRow (base new) (checksum new) (allocated new)
    (level old) (sacco_id old) (matatu_id old) (cashier_id old)
    (allocated_at old).

(** [sb.from('ussd_pool').upsert(rows, { onConflict: 'base' })]
    ([insert ... on conflict (base) do update set] the payload columns):
    one statement; a row that fails a CHECK constraint, as inserted or as
    merged, aborts it ([None]). *)
Fixpoint upsert (new : list row) (t : table) : option table :=
  match new with
  | [] => Some t
  | r :: rest =>
      if negb (row_ok r) then None
      else if has_base (base r) t then
        let t' := map (fun x => if (base x =? base r)%string
                                then merge_row x r else x) t in
        if forallb (fun x => negb (base x =? base r)%string || row_ok x) t'
        then upsert rest t' else None
      else upsert rest ((t ++ [r])%list)
  end.

End Seed.

(* ===================================================================== *)
(** * The role cache of the server *)
(* ===================================================================== *)

Module RoleCache.

(** A cached answer: [{ val, at }]. *)
Record entry : Type := mkEntry { val : bool; at_ms : Z }.

(** [const _roleCache = new Map();] a JavaScript [Map] keeps its entries
    in insertion order, one per key. *)
Definition cache := list (string * entry).

Definition _ROLE_TTL_MS : Z := 60 * 1000.
Definition _ROLE_MAX : nat := 500.

(** [map.get(k)] *)
Fixpoint map_get (k : string) (m : cache) : option entry :=
  match m with
  | [] => None
  | (k', e) :: m' => if (k' =? k)%string then Some e else map_get k m'
  end.

(** [map.set(k, e)]: the value of an existing key is replaced where it
    stands, a new key goes to the end. *)
Fixpoint map_set (k : string) (e : entry) (m : cache) : cache :=
  match m with
  | [] => [(k, e)]
  | (k', e') :: m' =>
      if (k' =? k)%string then (k', e) :: m' else (k', e') :: map_set k e m'
  end.

(** [map.delete(k)] *)
Definition map_delete (k : string) (m : cache) : cache :=
  filter (fun p => negb (fst p =? k)%string) m.

(** [function _getRoleCache(userId) {
       const o = _roleCache.get(userId);
       return o && Date.now() - o.at < _ROLE_TTL_MS ? o.val : undefined; }] *)
Definition _getRoleCache (userId : string) (now : Z) (m : cache)
  : option bool :=
  match map_get userId m with
  | Some o => if (now - at_ms o <? _ROLE_TTL_MS)%Z then Some (val o) else None
  | None => None
  end.

(** [function _setRoleCache(userId, val) {
       if (_roleCache.size > _ROLE_MAX) {
         const k = _roleCache.keys().next().value;
         _roleCache.delete(k); }
       _roleCache.set(userId, { val, at: Date.now() }); }] *)
Definition _setRoleCache (userId : string) (v : bool) (now : Z) (m : cache)
  : cache :=
  let m1 :=
    if _ROLE_MAX <? List.length m
    then match m with
         | (k, _) :: _ => map_delete k m
         | [] => m
         end
    else m in
  map_set userId (mkEntry v now) m1.

(** The outcome of the query of [isSaccoAdmin]: the call resolves, with a
    row ([true]) or without ([false]), or it throws. *)
Inductive query_outcome : Type :=
| Resolved (found : bool)
| Threw.

(** [async function isSaccoAdmin(userId)]: the cached answer if there is a
    fresh one; else the query, whose answer ([!!data], or [false] when the
    call throws) is cached and returned.  The result says whether the
    query was sent.  [now] is the clock when the cache is read, [later]
    when the answer is stored. *)
Definition isSaccoAdmin (userId : string) (now later : Z)
    (q : query_outcome) (m : cache) : bool * cache * bool :=
  match _getRoleCache userId now m with
  | Some memo => (memo, m, false)
  | None =>
      match q with
      | Resolved ok => (ok, _setRoleCache userId ok later m, true)
      | Threw => (false, _setRoleCache userId false later m, true)
      end
  end.

(** The keys of the cache, oldest first. *)
Definition keys (m : cache) : list string := map fst m.

End RoleCache.

(* ===================================================================== *)
(** * The in-memory books of the taxi and boda endpoints *)
(* ===================================================================== *)

Module Book.
Import JS.

(** A row of a book: its [created_at] stamp and the rest of what [_mkRow]
    puts in it (id, kind, amount, name, phone, category, notes), on which
    the endpoints below do not depend. *)
Record row (P : Type) : Type := mkRow { created_at : string; rest : P }.
Arguments mkRow {P} created_at rest.
Arguments created_at {P} r.
Arguments rest {P} r.

(** [s.slice(0, 10)] *)
Definition slice_0_10 (s : string) : string := String.substring 0 10 s.

(** [function _isSameDay(iso, day) { return String(iso || '').slice(0, 10) === day; }] *)
Definition _isSameDay (iso day : string) : bool :=
  (slice_0_10 iso =? day)%string.

(** [const limit = Math.min(Math.max(parseInt(req.query.limit || '20', 10), 1), 200);]
    as a function of what [parseInt] returned ([None] for NaN, which
    [Math.max] and [Math.min] pass on; an infinite value gives 200, as any
    number above 200 does). *)
Definition limit_of (parsed : option Z) : option Z :=
  match parsed with
  | Some n => Some (Z.min (Z.max n 1) 200)
  | None => None
  end.

(** [const day = (req.query.date || _todayStr()).slice(0, 10);] *)
Definition day_of (date : field) (today : string) : string :=
  slice_0_10 (match truthy date with Some d => d | None => today end).

(** [array.slice(start)] for an integer start, or NaN (taken as 0): a
    negative start counts from the end. *)
Definition slice_from {A} (start : option Z) (l : list A) : list A :=
  match start with
  | None => l
  | Some z =>
      if (z <? 0)%Z then skipn (List.length l - Z.to_nat (- z)) l
      else skipn (Z.to_nat z) l
  end.

(** GET [/api/<namespace>/cash] (and [/expenses]):
    [book.cash.filter(r => _isSameDay(r.created_at, day)).slice(-limit).reverse()] *)
Definition list_rows {P} (parsed : option Z) (date : field) (today : string)
    (book : list (row P)) : list (row P) :=
  let limit := limit_of parsed in
  let day := day_of date today in
  rev (slice_from (option_map Z.opp limit)
         (filter (fun r => _isSameDay (created_at r) day) book)).

(** POST [/api/<namespace>/cash] (and [/expenses]):
    [if (!Number.isFinite(Number(amount))) return res.status(422)...;
     const row = _mkRow(kind, req.body || {}); book.cash.push(row);
     res.json({ success: true, item: row });]
    [numeric] is the outcome of the test on the amount, [row] the row
    [_mkRow] makes. *)
Definition post_row {P} (numeric : bool) (r : row P) (book : list (row P))
  : option (row P) * list (row P) :=
  if numeric then (Some r, (book ++ [r])%list) else (None, book).

End Book.

(* ===================================================================== *)
(** * Further vocabulary of the statements *)
(* ===================================================================== *)

(** A row against the row it started as: same base, and allocated if it
    was. *)
Definition never_released (r0 r : Pool.row) : Prop :=
  Pool.base r = Pool.base r0 /\
  (Pool.allocated r0 = true -> Pool.allocated r = true).

(** What a batch of assign-next requests is answered when the available
    listing is [items]: the next item's code while items last, then "no
    free codes in pool". *)
Fixpoint batch_answers (rqs : list Server.request)
    (items : list (string * string)) : list Server.response :=
  match rqs with
  | [] => []
  | rq :: rqs' =>
      match items with
      | (b, c) :: items' =>
          Server.Success (Parser.fullCode (Server.rq_prefix rq) b c)
          :: batch_answers rqs' items'
      | [] =>
          Server.Failure 400 "no free codes in pool" :: batch_answers rqs' []
      end
  end.

(** Insertion sort for an order given as a boolean function; the two
    [order] clauses of the listings are instances of it. *)
Section GenericSort.

Variables (A : Type) (le : A -> A -> bool).

Fixpoint insert_with (r : A) (l : list A) : list A :=
  match l with
  | [] => [r]
  | x :: l' => if le r x then r :: l else x :: insert_with r l'
  end.

Definition sort_with (l : list A) : list A := fold_right insert_with [] l.

End GenericSort.

Definition leb_base (r x : Pool.row) : bool :=
  String.leb (Pool.base r) (Pool.base x).

Definition at_or_after_row (r x : Pool.row) : bool :=
  Listing.at_or_after (Pool.allocated_at r) (Pool.allocated_at x).

(** Requests served one at a time: each handler runs alone on the table
    the previous one left. *)
Fixpoint serve (ps : list (Server.prog Server.response)) (t : Pool.table)
  : Pool.table :=
  match ps with
  | [] => t
  | p :: ps' => serve ps' (Server.table_of (Server.run p t))
  end.

(* ===================================================================== *)
(** * Checks of the embedding on concrete inputs *)
(* ===================================================================== *)

Example digitalRoot_110 : Checksum.digitalRoot "110" = 2.
Proof. reflexivity. Qed.
Example digitalRoot_999 : Checksum.digitalRoot "999" = 9.
Proof. reflexivity. Qed.
Example digitalRoot_1a : Checksum.digitalRoot "1a" = 1.
Proof. reflexivity. Qed.
Example digitalRoot_long : Checksum.digitalRoot "9999999999999999999999" = 9.
Proof. reflexivity. Qed.

Example parse_default : Parser.parseUssdDigits "*001*1102#" = Some ("110", "2").
Proof. reflexivity. Qed.
Example parse_no_hash : Parser.parseUssdDigits "1102" = Some ("110", "2").
Proof. reflexivity. Qed.
Example parse_short : Parser.parseUssdDigits "*001*110#" = None.
Proof. reflexivity. Qed.
Example sql_seed_110 : Sql.seed_checksum "110" = "2".
Proof. reflexivity. Qed.

Example pool_available_example :
  Pool.pool_available Example.pool = [("110", "2"); ("115", "7"); ("120", "3")].
Proof. reflexivity. Qed.

Example assign_next_twice :
  let o1 := Server.run (Server.assign_next Example.sacco_A1) Example.pool in
  let o2 := Server.run (Server.assign_next Example.sacco_A1) (Server.table_of o1) in
  Server.result_of o1 = Server.Success "*001*1102#" /\
  Server.result_of o2 = Server.Success "*001*1157#" /\
  Pool.pool_available (Server.table_of o2) = [("120", "3")].
Proof. repeat split; reflexivity. Qed.

(* ===================================================================== *)
(** * Properties of the checksum *)
(* ===================================================================== *)

Section ChecksumFacts.
Import JS Checksum.

Lemma digitalRoot_loop_eq s :
  digitalRoot_loop s =
  if s <=? 9 then s else digitalRoot_loop (sumDigits (String_of_nat s)).
Proof.
  rewrite digitalRoot_loop_equation_1.
  destruct (le_lt_dec s 9) as [H|H].
  - rewrite digitalRoot_loop_clause_1_equation_1.
    apply Nat.leb_le in H. now rewrite H.
  - rewrite digitalRoot_loop_clause_1_equation_2.
    apply Nat.leb_gt in H. now rewrite H.
Qed.

Lemma closed_form_mod9 s s' :
  0 < s -> 0 < s' -> s' mod 9 = s mod 9 -> closed_form s' = closed_form s.
Proof.
  intros Hs Hs' E. unfold closed_form.
  destruct (Nat.eqb_spec s 0); [lia|]. destruct (Nat.eqb_spec s' 0); [lia|].
  f_equal.
  assert (R : forall x, 0 < x -> (x - 1) mod 9 = (x mod 9 + 8) mod 9).
  { intros x Hx. rewrite Nat.Div0.add_mod_idemp_l.
    replace (x + 8) with (x - 1 + 1 * 9) by lia.
    now rewrite Nat.Div0.mod_add. }
  rewrite (R s), (R s') by lia. now rewrite E.
Qed.

(** The loop computes the closed form, for every starting sum. *)
Lemma digitalRoot_loop_closed s : digitalRoot_loop s = closed_form s.
Proof.
  induction s as [s IH] using lt_wf_ind.
  rewrite digitalRoot_loop_eq.
  destruct (Nat.leb_spec s 9) as [Hle|Hgt].
  - unfold closed_form. destruct (Nat.eqb_spec s 0); [assumption|].
    rewrite Nat.mod_small by lia. lia.
  - destruct (sumDigits_String_of_nat s) as (_ & Hlt & Hpos & Hmod).
    rewrite IH by (apply Hlt; assumption).
    apply closed_form_mod9; [lia | apply Hpos; lia | assumption].
Qed.

Lemma closed_form_le9 s : closed_form s <= 9.
Proof.
  unfold closed_form. destruct (s =? 0); [lia|].
  pose proof (Nat.mod_upper_bound (s - 1) 9). lia.
Qed.

Lemma digitalRoot_le9 n : digitalRoot n <= 9.
Proof. unfold digitalRoot. rewrite digitalRoot_loop_closed. apply closed_form_le9. Qed.

Lemma isDigit_digitChar d : d < 10 -> isDigit (digitChar d) = true.
Proof. intros H. do 10 (destruct d as [|d]; [reflexivity|]). lia. Qed.

Lemma sumDigits_base_of_digits d1 d2 d3 :
  d1 < 10 -> d2 < 10 -> d3 < 10 ->
  sumDigits (base_of_digits d1 d2 d3) = d1 + d2 + d3.
Proof.
  intros H1 H2 H3. unfold base_of_digits.
  rewrite !sumDigits_cons, !NumberOr0_digitChar by assumption.
  change (sumDigits "") with 0. lia.
Qed.

Lemma int_of_text_base_of_digits d1 d2 d3 :
  d1 < 10 -> d2 < 10 -> d3 < 10 ->
  Sql.int_of_text (base_of_digits d1 d2 d3)
  = (100 * Z.of_nat d1 + 10 * Z.of_nat d2 + Z.of_nat d3)%Z.
Proof.
  intros H1 H2 H3. unfold Sql.int_of_text, base_of_digits.
  cbn [list_ascii_of_string fold_left].
  rewrite !NumberOr0_digitChar by assumption. lia.
Qed.

End ChecksumFacts.

(** C3. For every 3-digit base with digits [d1 d2 d3] and digit sum
    [s = d1 + d2 + d3], the server's [digitalRoot] returns 0 when [s = 0]
    and [1 + ((s - 1) mod 9)] otherwise; the seeding script, the SQL seed
    and the re-verification of bind-from-pool all produce the decimal
    numeral of that same number, which lies in 1..9 for a non-zero base. *)
Theorem C3_checksum_closed_form (d1 d2 d3 : nat) :
  d1 < 10 -> d2 < 10 -> d3 < 10 ->
  let base := base_of_digits d1 d2 d3 in
  let s := d1 + d2 + d3 in
  Checksum.digitalRoot base = (if s =? 0 then 0 else 1 + (s - 1) mod 9) /\
  Checksum.seed_digitalRoot base = JS.String_of_nat (Checksum.digitalRoot base) /\
  Sql.seed_checksum base = JS.String_of_nat (Checksum.digitalRoot base) /\
  Checksum.bind_want base = JS.String_of_nat (Checksum.digitalRoot base) /\
  (s <> 0 -> 1 <= Checksum.digitalRoot base <= 9).
Proof.
  intros H1 H2 H3 base s.
  assert (E : Checksum.digitalRoot base = closed_form s).
  { unfold Checksum.digitalRoot, base.
    rewrite sumDigits_base_of_digits by assumption.
    apply digitalRoot_loop_closed. }
  split; [exact E|]. split; [reflexivity|]. split; [|split; [reflexivity|]].
  - rewrite E. unfold Sql.seed_checksum, base.
    assert (D : Sql.all_digits (base_of_digits d1 d2 d3) = true).
    { unfold Sql.all_digits, base_of_digits. cbn [list_ascii_of_string forallb].
      now rewrite !isDigit_digitChar by assumption. }
    rewrite D, int_of_text_base_of_digits by assumption. cbn [negb].
    unfold closed_form, s.
    destruct (Z.eqb_spec (100 * Z.of_nat d1 + 10 * Z.of_nat d2 + Z.of_nat d3) 0)
      as [Z0|Z0].
    + destruct (Nat.eqb_spec (d1 + d2 + d3) 0); [reflexivity|lia].
    + destruct (Nat.eqb_spec (d1 + d2 + d3) 0); [lia|].
      unfold Sql.text_of_int. f_equal.
      rewrite Z.rem_mod_nonneg by lia.
      replace (100 * Z.of_nat d1 + 10 * Z.of_nat d2 + Z.of_nat d3 - 1)%Z
        with (Z.of_nat (d1 + d2 + d3 - 1)
              + (11 * Z.of_nat d1 + Z.of_nat d2) * 9)%Z by lia.
      rewrite Z.mod_add by lia.
      change 9%Z with (Z.of_nat 9). rewrite <- Nat2Z.inj_mod. lia.
  - intros Hs. rewrite E. unfold closed_form.
    destruct (Nat.eqb_spec s 0); [contradiction|].
    pose proof (Nat.mod_upper_bound (s - 1) 9). lia.
Qed.

(** C3 at base "110": every computation yields 2. *)
Lemma C3_checksum_closed_form_witness :
  Checksum.digitalRoot "110" = 2 /\
  Checksum.seed_digitalRoot "110" = "2" /\
  Sql.seed_checksum "110" = "2" /\
  Checksum.bind_want "110" = "2" /\
  (1 + 1 + 0 <> 0 -> 1 <= Checksum.digitalRoot "110" <= 9).
Proof.
  exact (C3_checksum_closed_form 1 1 0
           ltac:(lia) ltac:(lia) ltac:(lia)).
Defined.




(* ===================================================================== *)
(** * Properties of the code parser *)
(* ===================================================================== *)

Section ParserFacts.
Import JS Parser.

Lemma lookahead_spec post :
  lookahead post = true <-> (post = "" \/ exists post', post = String "#" post').
Proof.
  destruct post as [|c post]; simpl.
  - split; auto.
  - rewrite Ascii.eqb_eq. split.
    + intros ->. right. now exists post.
    + intros [H|[p H]]; [discriminate|]. now injection H.
Qed.

Lemma match_here_spec s b c :
  match_here s = Some (b, c) <-> occurs_at s 0 b c.
Proof.
  split.
  - destruct s as [|d1 [|d2 [|d3 [|d4 post]]]]; try discriminate. simpl.
    destruct (isDigit d1) eqn:E1; [|discriminate].
    destruct (isDigit d2) eqn:E2; [|discriminate].
    destruct (isDigit d3) eqn:E3; [|discriminate].
    destruct (isDigit d4) eqn:E4; [|discriminate].
    destruct (lookahead post) eqn:EL; [|discriminate]. simpl.
    intros H. injection H as <- <-.
    exists "", d1, d2, d3, d4, post.
    rewrite <- lookahead_spec. repeat split; auto.
  - intros (pre & d1 & d2 & d3 & d4 & post & -> & Hl & E1 & E2 & E3 & E4
            & HL & -> & ->).
    destruct pre; [|discriminate]. simpl.
    apply lookahead_spec in HL. now rewrite E1, E2, E3, E4, HL.
Qed.

Lemma occurs_at_shift a t j b c :
  occurs_at (String a t) (S j) b c <-> occurs_at t j b c.
Proof.
  split.
  - intros (pre & d1 & d2 & d3 & d4 & post & E & Hl & R).
    destruct pre as [|a' pre]; [discriminate|]. simpl in E, Hl.
    injection E as -> ->. injection Hl as Hl.
    now exists pre, d1, d2, d3, d4, post.
  - intros (pre & d1 & d2 & d3 & d4 & post & -> & Hl & R).
    exists (String a pre), d1, d2, d3, d4, post. simpl. auto.
Qed.

Lemma occurs_at_empty i b c : ~ occurs_at "" i b c.
Proof.
  intros (pre & d1 & d2 & d3 & d4 & post & E & _).
  destruct pre; discriminate.
Qed.

Lemma parse_first_match s b c :
  parseUssdDigits s = Some (b, c) <->
  exists i, occurs_at s i b c /\
            forall j b' c', j < i -> ~ occurs_at s j b' c'.
Proof.
  induction s as [|a t IH].
  - simpl. split; [discriminate|].
    intros (i & H & _). now apply occurs_at_empty in H.
  - cbn [parseUssdDigits].
    destruct (match_here (String a t)) as [[b0 c0]|] eqn:M.
    + apply match_here_spec in M. split.
      * intros H. injection H as <- <-. exists 0. split; [assumption|].
        intros j b' c' Hj. lia.
      * intros (i & Hi & Hmin). destruct i as [|i].
        -- apply match_here_spec in M, Hi. congruence.
        -- exfalso. apply (Hmin 0 b0 c0); [lia|assumption].
    + rewrite IH. split.
      * intros (i & Hi & Hmin). exists (S i). split.
        -- now apply occurs_at_shift.
        -- intros [|j] b' c' Hj H'.
           ++ apply match_here_spec in H'. congruence.
           ++ apply occurs_at_shift in H'. apply (Hmin j b' c'); [lia|assumption].
      * intros (i & Hi & Hmin). destruct i as [|i].
        -- apply match_here_spec in Hi. congruence.
        -- exists i. split; [now apply occurs_at_shift in Hi|].
           intros j b' c' Hj H'. apply (Hmin (S j) b' c'); [lia|].
           now apply occurs_at_shift.
Qed.

Lemma parse_none s :
  parseUssdDigits s = None <-> forall i b c, ~ occurs_at s i b c.
Proof.
  induction s as [|a t IH].
  - simpl. split; [|reflexivity]. intros _ i b c. apply occurs_at_empty.
  - cbn [parseUssdDigits].
    destruct (match_here (String a t)) as [[b0 c0]|] eqn:M.
    + split; [discriminate|]. intros H. exfalso.
      apply (H 0 b0 c0). now apply match_here_spec.
    + rewrite IH. split.
      * intros H [|i] b c H'.
        -- apply match_here_spec in H'. congruence.
        -- apply occurs_at_shift in H'. now apply (H i b c).
      * intros H i b c H'. apply (H (S i) b c). now apply occurs_at_shift.
Qed.

End ParserFacts.

(** C10. [parseUssdDigits] accepts a string exactly when, somewhere in it,
    three digits are followed by a fourth digit and then by '#' or the end
    of the string; the result is the leftmost such occurrence.  So
    "12345#" is not rejected: it parses at offset 1 as base "234", check
    "5". *)
Theorem C10_parser_first_occurrence :
  (forall s b c,
      Parser.parseUssdDigits s = Some (b, c) <->
      exists i, occurs_at s i b c /\
                forall j b' c', j < i -> ~ occurs_at s j b' c') /\
  (forall s,
      Parser.parseUssdDigits s = None <-> forall i b c, ~ occurs_at s i b c) /\
  Parser.parseUssdDigits "12345#" = Some ("234", "5") /\
  occurs_at "12345#" 1 "234" "5".
Proof.
  split; [exact parse_first_match|]. split; [exact parse_none|].
  split; [reflexivity|].
  exists "1", "2"%char, "3"%char, "4"%char, "5"%char, "#".
  repeat split; try reflexivity. right. now exists "".
Qed.

(** C10 at "*001*1102#": the only occurrence is at offset 5. *)
Lemma C10_parser_first_occurrence_witness :
  exists i, occurs_at "*001*1102#" i "110" "2" /\
            forall j b' c', j < i -> ~ occurs_at "*001*1102#" j b' c'.
Proof.
  exact (proj1 (proj1 C10_parser_first_occurrence "*001*1102#" "110" "2")
           eq_refl).
Defined.

(* ===================================================================== *)
(** * Facts about bases as text and as numbers *)
(* ===================================================================== *)

Section BaseOrder.
Import JS Sql.

Lemma isDigit_inv c : isDigit c = true -> exists d, d < 10 /\ c = digitChar d.
Proof.
  unfold isDigit. intros H. apply andb_true_iff in H as [H1 H2].
  apply Nat.leb_le in H1, H2.
  exists (nat_of_ascii c - 48). split; [lia|].
  unfold digitChar. replace (48 + (nat_of_ascii c - 48)) with (nat_of_ascii c) by lia.
  now rewrite ascii_nat_embedding.
Qed.

(** A string of exactly three digits is [base_of_digits] of its digits. *)
Lemma three_digits_inv b :
  String.length b = 3 -> forallb isDigit (list_ascii_of_string b) = true ->
  exists d1 d2 d3, d1 < 10 /\ d2 < 10 /\ d3 < 10 /\ b = base_of_digits d1 d2 d3.
Proof.
  destruct b as [|c1 [|c2 [|c3 [|c4 b]]]]; try discriminate. intros _. simpl.
  rewrite !andb_true_iff. intros (H1 & H2 & H3 & _).
  apply isDigit_inv in H1 as (d1 & L1 & ->).
  apply isDigit_inv in H2 as (d2 & L2 & ->).
  apply isDigit_inv in H3 as (d3 & L3 & ->).
  now exists d1, d2, d3.
Qed.

Lemma ussd_base_format_inv b :
  ussd_base_format b = true ->
  exists d1 d2 d3, d1 < 10 /\ d2 < 10 /\ d3 < 10 /\ b = base_of_digits d1 d2 d3
                   /\ d1 + d2 + d3 <> 0.
Proof.
  unfold ussd_base_format. rewrite !andb_true_iff, negb_true_iff.
  intros ((HL & HD) & HZ). apply Nat.eqb_eq in HL.
  destruct (three_digits_inv b HL HD) as (d1 & d2 & d3 & L1 & L2 & L3 & ->).
  exists d1, d2, d3. repeat (split; [assumption|]). split; [reflexivity|].
  intros E. assert (d1 = 0 /\ d2 = 0 /\ d3 = 0) as (-> & -> & ->) by lia.
  discriminate HZ.
Qed.

Lemma N_of_digitChar d : d < 10 -> N_of_ascii (digitChar d) = (48 + N.of_nat d)%N.
Proof. intros H. do 10 (destruct d as [|d]; [reflexivity|]). lia. Qed.

(** On three-digit bases the text order of the database is the numeric
    order. *)
Lemma leb_base_of_digits a1 a2 a3 b1 b2 b3 :
  a1 < 10 -> a2 < 10 -> a3 < 10 -> b1 < 10 -> b2 < 10 -> b3 < 10 ->
  String.leb (base_of_digits a1 a2 a3) (base_of_digits b1 b2 b3) = true <->
  100 * a1 + 10 * a2 + a3 <= 100 * b1 + 10 * b2 + b3.
Proof.
  intros A1 A2 A3 B1 B2 B3.
  unfold String.leb, base_of_digits. cbn [String.compare]. unfold Ascii.compare.
  rewrite !N_of_digitChar by assumption.
  destruct (N.compare_spec (48 + N.of_nat a1) (48 + N.of_nat b1));
    [|split; [lia|reflexivity]|split; [discriminate|lia]].
  destruct (N.compare_spec (48 + N.of_nat a2) (48 + N.of_nat b2));
    [|split; [lia|reflexivity]|split; [discriminate|lia]].
  destruct (N.compare_spec (48 + N.of_nat a3) (48 + N.of_nat b3));
    [split; [lia|reflexivity]|split; [lia|reflexivity]|split; [discriminate|lia]].
Qed.

Lemma leb_numeric b1 b2 :
  ussd_base_format b1 = true -> ussd_base_format b2 = true ->
  (String.leb b1 b2 = true <-> (int_of_text b1 <= int_of_text b2)%Z).
Proof.
  intros H1 H2.
  apply ussd_base_format_inv in H1 as (a1 & a2 & a3 & A1 & A2 & A3 & -> & _).
  apply ussd_base_format_inv in H2 as (c1 & c2 & c3 & C1 & C2 & C3 & -> & _).
  rewrite leb_base_of_digits, !int_of_text_base_of_digits by assumption. lia.
Qed.

Lemma compare_trans_le s1 :
  forall s2 s3,
    String.compare s1 s2 <> Gt -> String.compare s2 s3 <> Gt ->
    String.compare s1 s3 <> Gt.
Proof.
  induction s1 as [|c1 s1 IH]; intros [|c2 s2] [|c3 s3]; simpl;
    try congruence.
  unfold Ascii.compare.
  destruct (N.compare_spec (N_of_ascii c1) (N_of_ascii c2)) as [E12|L12|G12];
    [|intros _|congruence].
  - rewrite E12.
    destruct (N.compare_spec (N_of_ascii c2) (N_of_ascii c3)); try congruence.
    apply IH.
  - destruct (N.compare_spec (N_of_ascii c2) (N_of_ascii c3)) as [E23|L23|G23];
      [|intros _|congruence].
    + rewrite <- E23. intros _.
      destruct (N.compare_spec (N_of_ascii c1) (N_of_ascii c2)); try lia; congruence.
    + destruct (N.compare_spec (N_of_ascii c1) (N_of_ascii c3)); try lia; congruence.
Qed.

Lemma leb_trans s1 s2 s3 :
  String.leb s1 s2 = true -> String.leb s2 s3 = true -> String.leb s1 s3 = true.
Proof.
  unfold String.leb. intros H12 H23.
  pose proof (compare_trans_le s1 s2 s3) as T.
  destruct (String.compare s1 s2); destruct (String.compare s2 s3);
    destruct (String.compare s1 s3); try reflexivity; try discriminate;
    exfalso; apply T; congruence.
Qed.

End BaseOrder.

(* ===================================================================== *)
(** * Facts about the table statements *)
(* ===================================================================== *)

Section TableFacts.
Import JS Sql Pool.

Lemma insert_by_base_In r x l :
  In x (insert_by_base r l) <-> x = r \/ In x l.
Proof.
  induction l as [|y l IH]; simpl.
  - intuition.
  - destruct (String.leb (base r) (base y)); simpl; rewrite ?IH; intuition.
Qed.

Lemma order_by_base_In x l : In x (order_by_base l) <-> In x l.
Proof.
  induction l as [|y l IH]; simpl; [reflexivity|].
  rewrite insert_by_base_In, IH. intuition.
Qed.

Lemma leb_refl s : String.leb s s = true.
Proof. destruct (String.leb_total s s); assumption. Qed.

Lemma insert_by_base_head r l :
  head_least l -> head_least (insert_by_base r l).
Proof.
  destruct l as [|y l]; simpl.
  - intros _ x [<-|[]]. apply leb_refl.
  - intros H. destruct (String.leb (base r) (base y)) eqn:E; simpl.
    + intros x [<-|Hx]; [apply leb_refl|].
      apply leb_trans with (base y); [assumption|]. now apply H.
    + assert (Eyr : String.leb (base y) (base r) = true).
      { destruct (String.leb_total (base r) (base y)); congruence. }
      intros x [<-|Hx]; [apply leb_refl|].
      apply insert_by_base_In in Hx as [->|Hx]; [assumption|].
      apply H. now right.
Qed.

Lemma order_by_base_head l : head_least (order_by_base l).
Proof.
  induction l as [|y l IH]; simpl; [exact I|].
  now apply insert_by_base_head.
Qed.

(** What [select_next_free] returns: an unallocated row of the table that
    no unallocated row precedes in the order of [base]. *)
Lemma select_next_free_Some t b c :
  select_next_free t = Some (b, c) ->
  exists r, In r t /\ allocated r = false /\ base r = b /\ checksum r = c /\
            forall x, In x t -> allocated x = false ->
                      String.leb b (base x) = true.
Proof.
  unfold select_next_free.
  pose proof (order_by_base_head (unallocated t)) as Hh.
  pose proof (fun x => order_by_base_In x (unallocated t)) as Hin.
  destruct (order_by_base (unallocated t)) as [|r l]; [discriminate|].
  intros E. injection E as <- <-.
  assert (Hr : In r (unallocated t)) by (apply Hin; now left).
  apply filter_In in Hr as [Hr1 Hr2]. apply negb_true_iff in Hr2.
  exists r. repeat (split; [assumption || reflexivity|]).
  intros x Hx Ha. apply Hh. apply Hin. apply filter_In.
  split; [assumption|]. now rewrite Ha.
Qed.

Lemma select_next_free_None t :
  select_next_free t = None <-> unallocated t = [].
Proof.
  unfold select_next_free.
  pose proof (fun x => order_by_base_In x (unallocated t)) as Hin.
  destruct (order_by_base (unallocated t)) as [|r l] eqn:E.
  - split; [|reflexivity]. intros _.
    destruct (unallocated t) as [|x u]; [reflexivity|].
    exfalso. apply (Hin x). now left.
  - split; [discriminate|]. intros U. rewrite U in Hin.
    exfalso. apply (Hin r). now left.
Qed.

Lemma slot_In b t r : slot b t = Some r -> In r t /\ base r = b.
Proof.
  unfold slot. intros H. apply find_some in H as [H1 H2].
  now apply String.eqb_eq in H2.
Qed.

Lemma In_slot t r : primary_key t -> In r t -> slot (base r) t = Some r.
Proof.
  unfold primary_key, slot. induction t as [|x t IH]; simpl; [intros _ []|].
  intros Hnd Hin. inversion Hnd as [|? ? Hx Hnd']; subst.
  destruct Hin as [->|Hin].
  - now rewrite String.eqb_refl.
  - destruct (String.eqb_spec (base x) (base r)) as [E|_].
    + exfalso. apply Hx. rewrite E. now apply in_map.
    + now apply IH.
Qed.

Lemma select_by_base_slot b t :
  select_by_base b t = option_map (fun r => (allocated r, checksum r)) (slot b t).
Proof. reflexivity. Qed.

Lemma base_claim_row ty id now r : base (claim_row ty id now r) = base r.
Proof. reflexivity. Qed.

(** The update overwrites the row of [b], allocated or not, and leaves
    every other row as it is. *)
Lemma slot_update_by_base b b' ty id now t :
  slot b' (update_by_base b ty id now t) =
  if (b' =? b)%string then option_map (claim_row ty id now) (slot b' t)
  else slot b' t.
Proof.
  unfold slot, update_by_base. induction t as [|x t IH]; simpl.
  - now destruct (b' =? b)%string.
  - destruct (String.eqb_spec (base x) b) as [E|N].
    + rewrite base_claim_row.
      destruct (String.eqb_spec (base x) b') as [E'|N'].
      * subst. now rewrite String.eqb_refl.
      * exact IH.
    + destruct (String.eqb_spec (base x) b') as [E'|N'].
      * subst. destruct (String.eqb_spec (base x) b); [contradiction|reflexivity].
      * exact IH.
Qed.

Lemma map_base_update b ty id now t :
  map base (update_by_base b ty id now t) = map base t.
Proof.
  unfold update_by_base. rewrite map_map. apply map_ext.
  intros r. now destruct (base r =? b)%string.
Qed.

Lemma update_by_base_absent b ty id now t :
  slot b t = None -> update_by_base b ty id now t = t.
Proof.
  unfold slot, update_by_base. induction t as [|x t IH]; simpl; [reflexivity|].
  destruct (base x =? b)%string; [discriminate|].
  intros H. now rewrite IH.
Qed.

End TableFacts.

(* ===================================================================== *)
(** * Facts about target resolution *)
(* ===================================================================== *)

Section TargetFacts.
Import JS Pool Server.

Lemma resolveTarget_Returned l s m ty id :
  resolveTarget l s m = Returned (ty, id) ->
  (ty = MATATU /\ toUpperCase (orEmpty l) = "MATATU" /\ truthy m = Some id) \/
  (ty = SACCO /\ toUpperCase (orEmpty l) = "SACCO" /\ truthy s = Some id).
Proof.
  unfold resolveTarget.
  destruct (String.eqb_spec (toUpperCase (orEmpty l)) "MATATU") as [EM|NM].
  - destruct (truthy m) as [im|] eqn:Tm.
    + intros H. injection H as <- <-. left. auto.
    + destruct (String.eqb_spec (toUpperCase (orEmpty l)) "SACCO") as [ES|NS];
        [|discriminate].
      rewrite EM in ES. discriminate ES.
  - destruct (String.eqb_spec (toUpperCase (orEmpty l)) "SACCO") as [ES|NS];
      [|discriminate].
    destruct (truthy s) as [i1|] eqn:Ts; [|discriminate].
    intros H. injection H as <- <-. right. auto.
Qed.

Lemma resolveTarget_level l s m ty id :
  resolveTarget l s m = Returned (ty, id) ->
  ty <> CASHIER /\ (toUpperCase (orEmpty l) =? "CASHIER")%string = false.
Proof.
  intros H. apply resolveTarget_Returned in H as [(-> & E & _)|(-> & E & _)];
    rewrite E; split; (discriminate || reflexivity).
Qed.

Lemma resolveTarget_unsupported l s m :
  toUpperCase (orEmpty l) <> "SACCO" -> toUpperCase (orEmpty l) <> "MATATU" ->
  resolveTarget l s m =
  Thrown "level must be SACCO or MATATU (CASHIER no longer supported)".
Proof.
  intros NS NM. unfold resolveTarget.
  destruct (String.eqb_spec (toUpperCase (orEmpty l)) "MATATU"); [contradiction|].
  destruct (String.eqb_spec (toUpperCase (orEmpty l)) "SACCO"); [contradiction|].
  reflexivity.
Qed.

End TargetFacts.





(* ===================================================================== *)
(** * Full codes of well-formed rows *)
(* ===================================================================== *)

Section FullCodeFacts.
Import JS Checksum Sql Parser Pool.

Lemma digit_not_hash c : isDigit c = true -> (c =? "#")%char = false.
Proof.
  intros H. apply Ascii.eqb_neq. intros ->. discriminate H.
Qed.

Lemma match_here_digits d1 d2 d3 d4 :
  d1 < 10 -> d2 < 10 -> d3 < 10 -> d4 < 10 ->
  match_here (base_of_digits d1 d2 d3 ++ String (digitChar d4) "" ++ "#")
  = Some (base_of_digits d1 d2 d3, String (digitChar d4) "").
Proof.
  intros. unfold base_of_digits. cbn [append]. unfold match_here.
  rewrite !isDigit_digitChar by assumption. reflexivity.
Qed.

(** Before the base, no attempt of the pattern succeeds: the character
    four places on is a character of the prefix or a digit of the code,
    never '#', and never the end of the string. *)
Lemma match_here_in_prefix a p d1 d2 d3 d4 :
  no_hash (String a p) = true ->
  d1 < 10 -> d2 < 10 -> d3 < 10 -> d4 < 10 ->
  match_here (String a p ++ base_of_digits d1 d2 d3
              ++ String (digitChar d4) "" ++ "#") = None.
Proof.
  intros HN H1 H2 H3 H4.
  pose proof (digit_not_hash _ (isDigit_digitChar d1 H1)) as N1.
  pose proof (digit_not_hash _ (isDigit_digitChar d2 H2)) as N2.
  pose proof (digit_not_hash _ (isDigit_digitChar d3 H3)) as N3.
  pose proof (digit_not_hash _ (isDigit_digitChar d4 H4)) as N4.
  unfold no_hash in HN. unfold base_of_digits.
  destruct p as [|a1 [|a2 [|a3 [|a4 p]]]];
    cbn [list_ascii_of_string forallb] in HN; cbn [append];
    unfold match_here, lookahead;
    rewrite ?andb_true_iff, ?negb_true_iff in HN;
    repeat match goal with H : _ /\ _ |- _ => destruct H end;
    repeat match goal with H : (_ =? "#")%char = false |- _ => rewrite H end;
    rewrite ?andb_false_r; reflexivity.
Qed.

Lemma parse_full_code p d1 d2 d3 d4 :
  no_hash p = true ->
  d1 < 10 -> d2 < 10 -> d3 < 10 -> d4 < 10 ->
  parseUssdDigits (p ++ base_of_digits d1 d2 d3 ++ String (digitChar d4) "" ++ "#")
  = Some (base_of_digits d1 d2 d3, String (digitChar d4) "").
Proof.
  intros HN H1 H2 H3 H4. induction p as [|a p IH].
  - change ("" ++ ?x) with x.
    pose proof (match_here_digits d1 d2 d3 d4 H1 H2 H3 H4) as M.
    unfold base_of_digits in *. cbn [append] in *.
    cbn [parseUssdDigits]. now rewrite M.
  - pose proof (match_here_in_prefix a p d1 d2 d3 d4 HN H1 H2 H3 H4) as M.
    cbn [append] in *. cbn [parseUssdDigits]. rewrite M. apply IH.
    unfold no_hash in *. simpl in HN. now apply andb_true_iff in HN.
Qed.

Lemma String_of_nat_digit d : d < 10 -> String_of_nat d = String (digitChar d) "".
Proof.
  intros H. rewrite String_of_nat_eq. apply Nat.ltb_lt in H. now rewrite H.
Qed.

(** What the format constraints of the table say of a row: a three-digit
    base, not 000, and a checksum that is the numeral of the digital root
    of the base. *)
Lemma row_format_inv r :
  row_format r = true ->
  exists d1 d2 d3 d4,
    d1 < 10 /\ d2 < 10 /\ d3 < 10 /\ d4 < 10 /\
    base r = base_of_digits d1 d2 d3 /\
    checksum r = String (digitChar d4) "" /\
    bind_want (base r) = checksum r.
Proof.
  unfold row_format. rewrite !andb_true_iff. intros ((HB & HC) & HM).
  apply ussd_base_format_inv in HB
    as (d1 & d2 & d3 & L1 & L2 & L3 & EB & NZ).
  unfold ussd_checksum_format in HC.
  destruct (checksum r) as [|c [|? ?]] eqn:EC; try discriminate.
  apply andb_true_iff in HC as [HC _].
  apply isDigit_inv in HC as (d4 & L4 & ->).
  exists d1, d2, d3, d4. repeat (split; [assumption|]). split; [reflexivity|].
  unfold ussd_checksum_matches_base in HM. apply Z.eqb_eq in HM.
  rewrite EB in HM |- *.
  unfold int_of_text, digit_at, base_of_digits in HM.
  cbn [list_ascii_of_string fold_left String.get Nat.sub] in HM.
  rewrite !NumberOr0_digitChar in HM by assumption.
  rewrite Z.rem_mod_nonneg in HM by lia.
  unfold bind_want, digitalRoot.
  rewrite sumDigits_base_of_digits, digitalRoot_loop_closed by assumption.
  unfold closed_form. destruct (Nat.eqb_spec (d1 + d2 + d3) 0); [contradiction|].
  assert (E : 1 + (d1 + d2 + d3 - 1) mod 9 = d4).
  { apply Nat2Z.inj. rewrite Nat2Z.inj_add, Nat2Z.inj_mod.
    replace (Z.of_nat (d1 + d2 + d3 - 1))
      with (Z.of_nat d1 + Z.of_nat d2 + Z.of_nat d3 - 1)%Z by lia.
    change (Z.of_nat 9) with 9%Z. change (Z.of_nat 1) with 1%Z. lia. }
  rewrite E. now apply String_of_nat_digit.
Qed.

End FullCodeFacts.

(** C6. For a row of the pool that is already allocated, bind-from-pool
    on its full code (any prefix without '#', the row's base, its checksum
    and '#'), with a target that resolves, answers "already allocated"
    (status 400) after one read; it sends no update, and the whole table,
    that row included, stays as it was. *)
Theorem C6_bind_already_allocated (rq : Server.request) (t : Pool.table)
    (r : Pool.row) (p : string) (ty : Pool.level_t) (id : string) :
  Pool.slot (Pool.base r) t = Some r ->
  Pool.allocated r = true ->
  Pool.row_format r = true ->
  no_hash p = true ->
  Server.rq_ussd_code rq = p ++ Pool.base r ++ Pool.checksum r ++ "#" ->
  Server.resolveTarget (Server.rq_level rq) (Server.rq_sacco_id rq)
    (Server.rq_matatu_id rq) = JS.Returned (ty, id) ->
  Server.run (Server.bind_from_pool rq) t
  = (Server.Failure 400 "already allocated", t, [Server.ReadByBase (Pool.base r)])
  /\ Pool.slot (Pool.base r)
       (Server.table_of (Server.run (Server.bind_from_pool rq) t)) = Some r.
Proof.
  intros HS HA HF HN HC HR.
  destruct (row_format_inv r HF)
    as (d1 & d2 & d3 & d4 & L1 & L2 & L3 & L4 & EB & EC & EW).
  assert (HP : Parser.parseUssdDigits (Server.rq_ussd_code rq)
               = Some (Pool.base r, Pool.checksum r)).
  { rewrite HC, EB, EC. now apply parse_full_code. }
  assert (E : Server.run (Server.bind_from_pool rq) t
              = (Server.Failure 400 "already allocated", t,
                 [Server.ReadByBase (Pool.base r)])).
  { unfold Server.bind_from_pool.
    destruct (resolveTarget_level _ _ _ _ _ HR) as [_ HL].
    rewrite HL, HR, HP. unfold Checksum.bind_want in EW.
    rewrite EW, String.eqb_refl. cbn [negb Server.run].
    rewrite select_by_base_slot, HS. cbn [option_map]. now rewrite HA. }
  split; [exact E|]. now rewrite E.
Qed.

(** C6 in the scenario of the spec: assign-next gives base 110 to SACCO
    A1; binding "*001*1102#" to MATATU M1 is then refused and the slot
    still reads SACCO / A1. *)
Lemma C6_bind_already_allocated_witness :
  let t1 := Server.table_of
              (Server.run (Server.assign_next Example.sacco_A1) Example.pool) in
  let r := Pool.claim_row Pool.SACCO "A1" 10 (Pool.seeded_row "110" "2") in
  Pool.slot "110" t1 = Some r /\
  Server.run (Server.bind_from_pool (Example.matatu_M1_bind "*001*1102#")) t1
  = (Server.Failure 400 "already allocated", t1, [Server.ReadByBase "110"]) /\
  Pool.slot "110"
    (Server.table_of
       (Server.run (Server.bind_from_pool (Example.matatu_M1_bind "*001*1102#")) t1))
  = Some r.
Proof.
  intros t1 r. split; [reflexivity|].
  exact (C6_bind_already_allocated (Example.matatu_M1_bind "*001*1102#") t1 r
           "*001*" Pool.MATATU "M1"
           eq_refl eq_refl eq_refl eq_refl eq_refl eq_refl).
Defined.

(* ===================================================================== *)
(** * assign-next *)
(* ===================================================================== *)

Section AssignNextFacts.
Import JS Pool Server.

(** The run of assign-next for a target that resolves, by the answer of
    the one listing it makes. *)
Lemma run_assign_next rq t ty id :
  resolveTarget (rq_level rq) (rq_sacco_id rq) (rq_matatu_id rq)
  = Returned (ty, id) ->
  run (assign_next rq) t =
  match select_next_free t with
  | None => (Failure 400 "no free codes in pool", t, [ReadNextFree])
  | Some (b, c) =>
      (Success (Parser.fullCode (rq_prefix rq) b c),
       update_by_base b ty id (rq_now rq) t,
       [ReadNextFree; WriteByBase b])
  end.
Proof.
  intros HR. unfold assign_next.
  destruct (resolveTarget_level _ _ _ _ _ HR) as [_ HL].
  rewrite HL, HR. cbn [run].
  now destruct (select_next_free t) as [[b c]|].
Qed.

Lemma example_pool_format :
  forall x, In x Example.pool -> Sql.ussd_base_format (base x) = true.
Proof.
  intros x Hx. simpl in Hx.
  repeat (destruct Hx as [<-|Hx]; [reflexivity|]). destruct Hx.
Qed.

Lemma example_pool_key : primary_key Example.pool.
Proof.
  unfold primary_key. simpl.
  repeat (constructor; [simpl; intuition discriminate|]). constructor.
Qed.

End AssignNextFacts.






(* ===================================================================== *)
(** * What a handler can write *)
(* ===================================================================== *)

Section WriteFacts.
Import JS Pool Server.

Lemma updates_satisfy_weaken {A} (P Q : level_t -> string -> nat -> Prop)
    (p : prog A) :
  (forall ty id now, P ty id now -> Q ty id now) ->
  updates_satisfy P p -> updates_satisfy Q p.
Proof. intros HPQ H. induction H; constructor; auto. Qed.

Lemma assign_next_writes_own rq ty id :
  resolveTarget (rq_level rq) (rq_sacco_id rq) (rq_matatu_id rq)
  = Returned (ty, id) ->
  updates_satisfy (own_target ty id (rq_now rq)) (assign_next rq).
Proof.
  intros HR. unfold assign_next.
  destruct (_ =? "CASHIER")%string; [constructor|]. rewrite HR.
  constructor. intros [[b c]|]; repeat constructor.
Qed.

Lemma bind_from_pool_writes_own rq ty id :
  resolveTarget (rq_level rq) (rq_sacco_id rq) (rq_matatu_id rq)
  = Returned (ty, id) ->
  updates_satisfy (own_target ty id (rq_now rq)) (bind_from_pool rq).
Proof.
  intros HR. unfold bind_from_pool.
  destruct (_ =? "CASHIER")%string; [constructor|]. rewrite HR.
  destruct (Parser.parseUssdDigits _) as [[pb pc]|]; [|constructor].
  destruct (negb _); [constructor|].
  constructor. intros [[[|] c]|]; repeat constructor.
Qed.

Lemma handler_writes_own h rq ty id :
  handler h ->
  resolveTarget (rq_level rq) (rq_sacco_id rq) (rq_matatu_id rq)
  = Returned (ty, id) ->
  updates_satisfy (own_target ty id (rq_now rq)) (h rq).
Proof.
  intros [->| ->]; [apply assign_next_writes_own|apply bind_from_pool_writes_own].
Qed.

Lemma handler_writes_live h rq : handler h -> updates_satisfy live_level (h rq).
Proof.
  intros Hh.
  destruct (resolveTarget (rq_level rq) (rq_sacco_id rq) (rq_matatu_id rq))
    as [[ty id]|m] eqn:HR.
  - apply updates_satisfy_weaken with (P := own_target ty id (rq_now rq)).
    + intros ty' id' now' (-> & _ & _).
      now destruct (resolveTarget_level _ _ _ _ _ HR).
    + now apply handler_writes_own.
  - destruct Hh as [->| ->]; unfold assign_next, bind_from_pool;
      destruct (_ =? "CASHIER")%string; try constructor;
      rewrite HR; constructor.
Qed.

(** One statement: the rest of the program still satisfies the bound, and
    the table is unchanged or updated once with a target within it. *)
Lemma step_updates {A} P (p : prog A) t :
  updates_satisfy P p ->
  updates_satisfy P (fst (fst (step p t))) /\
  (snd (fst (step p t)) = t \/
   exists b ty id now,
     P ty id now /\ snd (fst (step p t)) = update_by_base b ty id now t).
Proof.
  intros H. destruct H; cbn [step fst snd].
  - split; [constructor|now left].
  - split; [apply H|now left].
  - split; [apply H|now left].
  - split; [assumption|]. right. now exists b, ty, id, now.
Qed.

(** A property of tables that every permitted update keeps is kept by a
    whole run and by every schedule of two programs. *)
Lemma run_preserves {A} P (I : table -> Prop) (p : prog A) :
  (forall b ty id now t, P ty id now -> I t -> I (update_by_base b ty id now t)) ->
  updates_satisfy P p -> forall t, I t -> I (table_of (run p t)).
Proof.
  intros HI H. unfold table_of.
  induction H as [a|k Hk IH|b k Hk IH|b ty id now k HP Hk IH]; intros t Ht;
    cbn [run].
  - exact Ht.
  - specialize (IH (select_next_free t) t Ht).
    destruct (run (k (select_next_free t)) t) as [[a t'] l]. exact IH.
  - specialize (IH (select_by_base b t) t Ht).
    destruct (run (k (select_by_base b t)) t) as [[a t'] l]. exact IH.
  - specialize (IH (update_by_base b ty id now t) (HI _ _ _ _ _ HP Ht)).
    destruct (run k (update_by_base b ty id now t)) as [[a t'] l]. exact IH.
Qed.

Lemma run_sched_preserves PA PB (I : table -> Prop) s :
  (forall b ty id now t, PA ty id now -> I t -> I (update_by_base b ty id now t)) ->
  (forall b ty id now t, PB ty id now -> I t -> I (update_by_base b ty id now t)) ->
  forall cf,
    updates_satisfy PA (left_A cf) -> updates_satisfy PB (left_B cf) ->
    I (store cf) -> I (store (run_sched s cf)).
Proof.
  intros HA HB. unfold run_sched.
  induction s as [|c s IH]; intros cf UA UB Ht; cbn [fold_left]; [exact Ht|].
  destruct c; apply IH; unfold sched_step.
  - destruct (step_updates PA (left_A cf) (store cf) UA) as [U _].
    destruct (step (left_A cf) (store cf)) as [[p t'] l]. exact U.
  - destruct (step (left_A cf) (store cf)) as [[p t'] l]. exact UB.
  - destruct (step_updates PA (left_A cf) (store cf) UA) as [_ [E|E]];
      destruct (step (left_A cf) (store cf)) as [[p t'] l]; cbn [fst snd store] in *.
    + now rewrite E.
    + destruct E as (b & ty & id & now & HP & ->). now apply HA.
  - destruct (step (left_B cf) (store cf)) as [[p t'] l]. exact UA.
  - destruct (step_updates PB (left_B cf) (store cf) UB) as [U _].
    destruct (step (left_B cf) (store cf)) as [[p t'] l]. exact U.
  - destruct (step_updates PB (left_B cf) (store cf) UB) as [_ [E|E]];
      destruct (step (left_B cf) (store cf)) as [[p t'] l]; cbn [fst snd store] in *.
    + now rewrite E.
    + destruct E as (b & ty & id & now & HP & ->). now apply HB.
Qed.

End WriteFacts.

(* ===================================================================== *)
(** * The allocation invariant *)
(* ===================================================================== *)

Section InvariantFacts.
Import JS Pool Server.

Lemma slot_inv_seeded b c : slot_inv (seeded_row b c).
Proof. split; simpl; [tauto|discriminate]. Qed.

Lemma slot_inv_claim_row ty id now r :
  ty <> CASHIER -> slot_inv (claim_row ty id now r).
Proof.
  intros H. destruct ty; [| |contradiction]; split; simpl.
  - split; [discriminate|]. intros (D & _). discriminate D.
  - intros _. left. repeat split. discriminate.
  - split; [discriminate|]. intros (D & _). discriminate D.
  - intros _. right. repeat split. discriminate.
Qed.

Lemma update_keeps_slot_inv b ty id now t :
  live_level ty id now ->
  Forall slot_inv t -> Forall slot_inv (update_by_base b ty id now t).
Proof.
  intros HL HF. unfold update_by_base. apply Forall_map.
  apply Forall_impl with (P := slot_inv); [|assumption].
  intros r Hr. destruct (base r =? b)%string; [|assumption].
  now apply slot_inv_claim_row.
Qed.

Lemma claim_row_passes_check ty id now r :
  ty <> CASHIER -> ussd_allocated_fields (claim_row ty id now r) = true.
Proof. intros H. destruct ty; [reflexivity|reflexivity|contradiction]. Qed.

Lemma example_pool_inv : Forall slot_inv Example.pool.
Proof.
  unfold Example.pool.
  apply Forall_cons; [apply slot_inv_seeded|].
  apply Forall_cons.
  { split; simpl.
    - split; [discriminate|]. intros (D & _). discriminate D.
    - intros _. left. repeat split. discriminate. }
  apply Forall_cons; [apply slot_inv_seeded|].
  apply Forall_cons; [apply slot_inv_seeded|]. constructor.
Qed.

End InvariantFacts.

(** C2. The slot invariant (unallocated if and only if level and both
    identifiers are empty; when allocated, exactly the identifier that
    goes with the level is set) holds of every seeded row, is kept for
    every row of the table by assign-next and by bind-from-pool, and holds
    after every statement of every interleaving of two such requests;
    every row these handlers write also passes the table constraint
    [ussd_allocated_fields]. *)
Theorem C2_slot_invariant :
  (forall b c, slot_inv (Pool.seeded_row b c)) /\
  (forall t rq,
      Forall slot_inv t ->
      Forall slot_inv (Server.table_of (Server.run (Server.assign_next rq) t)) /\
      Forall slot_inv (Server.table_of (Server.run (Server.bind_from_pool rq) t))) /\
  (forall t hA hB rqA rqB sched,
      handler hA -> handler hB -> Forall slot_inv t ->
      Forall slot_inv
        (Server.store
           (Server.run_sched sched (Server.mkConfig t (hA rqA) (hB rqB))))) /\
  (forall h rq t b ty id now k,
      handler h ->
      fst (fst (Server.step (h rq) t)) = Server.UpdateByBase b ty id now k ->
      forall r, Pool.ussd_allocated_fields (Pool.claim_row ty id now r) = true).
Proof.
  split; [exact slot_inv_seeded|]. split; [|split].
  - intros t rq HF. split.
    + apply (run_preserves live_level (Forall slot_inv)); auto.
      * intros b ty id now t0. apply update_keeps_slot_inv.
      * apply handler_writes_live. now left.
    + apply (run_preserves live_level (Forall slot_inv)); auto.
      * intros b ty id now t0. apply update_keeps_slot_inv.
      * apply handler_writes_live. now right.
  - intros t hA hB rqA rqB sched HA HB HF.
    apply (run_sched_preserves live_level live_level (Forall slot_inv));
      cbn [Server.left_A Server.left_B Server.store]; auto.
    + intros b ty id now t0. apply update_keeps_slot_inv.
    + intros b ty id now t0. apply update_keeps_slot_inv.
    + now apply handler_writes_live.
    + now apply handler_writes_live.
  - intros h rq t b ty id now k Hh E r.
    apply claim_row_passes_check.
    pose proof (handler_writes_live h rq Hh) as U.
    destruct (step_updates live_level (h rq) t U) as [U' _].
    rewrite E in U'. now inversion U'.
Qed.

(** C2 on the example pool: the invariant holds there, and so it holds
    after assign-next, after bind-from-pool, and after both of them run
    interleaved. *)
Lemma C2_slot_invariant_witness :
  Forall slot_inv Example.pool /\
  Forall slot_inv
    (Server.table_of
       (Server.run (Server.assign_next Example.sacco_A1) Example.pool)) /\
  Forall slot_inv
    (Server.table_of
       (Server.run (Server.bind_from_pool (Example.matatu_M1_bind "*001*1157#"))
          Example.pool)) /\
  Forall slot_inv
    (Server.store
       (Server.run_sched
          [Server.CallerA; Server.CallerB; Server.CallerA; Server.CallerB]
          (Server.mkConfig Example.pool
             (Server.assign_next Example.sacco_A1)
             (Server.bind_from_pool (Example.matatu_M1_bind "*001*1102#"))))).
Proof.
  pose proof example_pool_inv as H.
  destruct C2_slot_invariant as (_ & Hrun & Hsched & _).
  split; [exact H|]. split; [|split].
  - exact (proj1 (Hrun Example.pool Example.sacco_A1 H)).
  - exact (proj2 (Hrun Example.pool (Example.matatu_M1_bind "*001*1157#") H)).
  - exact (Hsched Example.pool Server.assign_next Server.bind_from_pool
             Example.sacco_A1 (Example.matatu_M1_bind "*001*1102#") _
             (or_introl eq_refl) (or_intror eq_refl) H).
Defined.

(* ===================================================================== *)
(** * Two callers and one base *)
(* ===================================================================== *)

Section ClaimFacts.
Import JS Pool Server.

(** The run of bind-from-pool for a target that resolves. *)
Lemma run_bind_from_pool rq t ty id :
  resolveTarget (rq_level rq) (rq_sacco_id rq) (rq_matatu_id rq)
  = Returned (ty, id) ->
  run (bind_from_pool rq) t =
  match Parser.parseUssdDigits (rq_ussd_code rq) with
  | None => (Failure 400 "invalid code format", t, [])
  | Some (pb, pc) =>
      if negb (Checksum.bind_want pb =? pc)%string
      then (Failure 400 ("checksum mismatch; expected " ++ Checksum.bind_want pb),
            t, [])
      else
        match select_by_base pb t with
        | None => (Failure 400 "base not in pool", t, [ReadByBase pb])
        | Some (true, _) => (Failure 400 "already allocated", t, [ReadByBase pb])
        | Some (false, _) =>
            (Success (Parser.fullCode (rq_prefix rq) pb pc),
             update_by_base pb ty id (rq_now rq) t,
             [ReadByBase pb; WriteByBase pb])
        end
  end.
Proof.
  intros HR. unfold bind_from_pool, Checksum.bind_want.
  destruct (resolveTarget_level _ _ _ _ _ HR) as [_ HL].
  rewrite HL, HR.
  destruct (Parser.parseUssdDigits _) as [[pb pc]|]; [|reflexivity].
  destruct (negb _); [reflexivity|]. cbn [run].
  now destruct (select_by_base pb t) as [[[|] c]|].
Qed.

Lemma run_handler_cases h rq t ty id :
  handler h ->
  resolveTarget (rq_level rq) (rq_sacco_id rq) (rq_matatu_id rq)
  = Returned (ty, id) ->
  writes_nothing (run (h rq) t) t \/
  exists b, In (WriteByBase b) (log_of (run (h rq) t)) /\
            writes_base (run (h rq) t) t ty id (rq_now rq) b.
Proof.
  intros [->| ->] HR.
  - rewrite (run_assign_next rq t ty id HR).
    destruct (select_next_free t) as [[b c]|] eqn:HS.
    + right. exists b. split; [simpl; auto|].
      destruct (select_next_free_Some t b c HS) as (r & Hin & Ha & Hb & _).
      unfold writes_base, table_of, result_of, log_of. cbn [fst snd].
      split; [now exists r|]. split; [reflexivity|].
      split; [now eexists|]. split.
      * intros b' [D|[D|[]]]; [discriminate|now injection D].
      * intros b' [D|[D|[]]]; discriminate.
    + left. unfold writes_nothing, table_of, result_of, log_of. cbn [fst snd].
      split; [reflexivity|]. split; [intros b [D|[]]; discriminate|].
      split; [discriminate|]. intros b [D|[]]. discriminate.
  - rewrite (run_bind_from_pool rq t ty id HR).
    destruct (Parser.parseUssdDigits _) as [[pb pc]|].
    2: { left. unfold writes_nothing, table_of, result_of, log_of. cbn [fst snd].
         split; [reflexivity|]. split; [intros b []|].
         split; [discriminate|]. intros b []. }
    destruct (negb _).
    { left. unfold writes_nothing, table_of, result_of, log_of. cbn [fst snd].
      split; [reflexivity|]. split; [intros b []|].
      split; [discriminate|]. intros b []. }
    rewrite select_by_base_slot.
    destruct (slot pb t) as [r|] eqn:HS; cbn [option_map].
    + destruct (allocated r) eqn:Ha.
      * left. unfold writes_nothing, table_of, result_of, log_of. cbn [fst snd].
        split; [reflexivity|]. split; [intros b [D|[]]; discriminate|].
        split; [discriminate|]. intros b [D|[]]. injection D as <-.
        intros r' Hr'. rewrite HS in Hr'. injection Hr' as <-. auto.
      * right. exists pb. split; [simpl; auto|].
        destruct (slot_In pb t r HS) as [Hin Hb].
        unfold writes_base, table_of, result_of, log_of. cbn [fst snd].
        split; [now exists r|]. split; [reflexivity|].
        split; [now eexists|]. split.
        -- intros b' [D|[D|[]]]; [discriminate|now injection D].
        -- intros b' [D|[D|[]]]; [now injection D|discriminate].
    + left. unfold writes_nothing, table_of, result_of, log_of. cbn [fst snd].
      split; [reflexivity|]. split; [intros b [D|[]]; discriminate|].
      split; [discriminate|]. intros b [D|[]]. injection D as <-.
      intros r' Hr'. rewrite HS in Hr'. discriminate Hr'.
Qed.

(** After the update, every row of the base is allocated. *)
Lemma update_allocates b ty id now t x :
  In x (update_by_base b ty id now t) -> base x = b -> allocated x = true.
Proof.
  unfold update_by_base. intros Hin Hb. apply in_map_iff in Hin as (r & E & _).
  destruct (String.eqb_spec (base r) b) as [Eb|Nb]; subst x; [reflexivity|].
  contradiction.
Qed.

(** Each handler is at most two statements long: two steps of the
    schedule finish it, with the response and table of its run alone. *)
Lemma handler_two_steps h rq t :
  handler h ->
  let o1 := step (h rq) t in
  let o2 := step (fst (fst o1)) (snd (fst o1)) in
  fst (fst o2) = Ret (result_of (run (h rq) t)) /\
  snd (fst o2) = table_of (run (h rq) t).
Proof.
  unfold table_of, result_of.
  intros [->| ->]; unfold assign_next, bind_from_pool;
    (destruct (_ =? "CASHIER")%string; [split; reflexivity|]);
    (destruct (resolveTarget _ _ _) as [[ty id]|m]; [|split; reflexivity]).
  - cbn [step run fst snd].
    destruct (select_next_free t) as [[b c]|]; split; reflexivity.
  - destruct (Parser.parseUssdDigits _) as [[pb pc]|]; [|split; reflexivity].
    destruct (negb _); [split; reflexivity|]. cbn [step run fst snd].
    destruct (select_by_base pb t) as [[[|] c]|]; split; reflexivity.
Qed.

Lemma run_sched_one_after_the_other hA hB rqA rqB t :
  handler hA -> handler hB ->
  let oA := run (hA rqA) t in
  let oB := run (hB rqB) (table_of oA) in
  run_sched [CallerA; CallerA; CallerB; CallerB] (mkConfig t (hA rqA) (hB rqB))
  = mkConfig (table_of oB) (Ret (result_of oA)) (Ret (result_of oB)).
Proof.
  intros HA HB oA oB. unfold run_sched. cbn [fold_left].
  pose proof (handler_two_steps hA rqA t HA) as [EA1 EA2].
  cbv zeta in EA1, EA2. fold oA in EA1, EA2.
  unfold sched_step at 4. cbn [left_A left_B store].
  destruct (step (hA rqA) t) as [[pA1 tA1] lA1]. cbn [fst snd] in EA1, EA2.
  unfold sched_step at 3. cbn [left_A left_B store].
  destruct (step pA1 tA1) as [[pA2 tA2] lA2]. cbn [fst snd] in EA1, EA2.
  subst pA2 tA2.
  pose proof (handler_two_steps hB rqB (table_of oA) HB) as [EB1 EB2].
  cbv zeta in EB1, EB2. fold oB in EB1, EB2.
  unfold sched_step at 2. cbn [left_A left_B store].
  destruct (step (hB rqB) (table_of oA)) as [[pB1 tB1] lB1].
  cbn [fst snd] in EB1, EB2.
  unfold sched_step. cbn [left_A left_B store].
  destruct (step pB1 tB1) as [[pB2 tB2] lB2]. cbn [fst snd] in EB1, EB2.
  now subst pB2 tB2.
Qed.

End ClaimFacts.

Section WholeTarget.
Import JS Pool Server.

Variables (tyA tyB : level_t) (idA idB : string) (nowA nowB : nat).

Local Abbreviation untouched_or_whole :=
  (untouched_or_whole tyA tyB idA idB nowA nowB).

Lemma untouched_or_whole_key r0 r :
  untouched_or_whole r0 r -> base r = base r0 /\ checksum r = checksum r0.
Proof. intros [->|[->| ->]]; split; reflexivity. Qed.

Lemma update_keeps_whole b ty id now t0 t :
  own_target tyA idA nowA ty id now \/ own_target tyB idB nowB ty id now ->
  Forall2 untouched_or_whole t0 t ->
  Forall2 untouched_or_whole t0 (update_by_base b ty id now t).
Proof.
  intros HP HF. unfold update_by_base.
  induction HF as [|r0 r t0 t Hr HF IH]; cbn [map]; constructor; [|exact IH].
  destruct (base r =? b)%string; [|exact Hr].
  destruct (untouched_or_whole_key r0 r Hr) as [Eb Ec].
  assert (E : claim_row ty id now r = claim_row ty id now r0).
  { unfold claim_row. now rewrite Eb, Ec. }
  rewrite E. destruct HP as [(-> & -> & ->)|(-> & -> & ->)].
  - right. now left.
  - right. now right.
Qed.

Lemma slot_whole b t0 t r0 :
  Forall2 untouched_or_whole t0 t -> slot b t0 = Some r0 ->
  exists r, slot b t = Some r /\ untouched_or_whole r0 r.
Proof.
  unfold slot. intros HF. induction HF as [|x0 x t0 t Hx HF IH]; cbn [find].
  - discriminate.
  - destruct (untouched_or_whole_key x0 x Hx) as [Eb _]. rewrite Eb.
    destruct (base x0 =? b)%string; [|exact IH].
    intros E. injection E as <-. now exists x.
Qed.

Lemma Forall2_untouched t : Forall2 untouched_or_whole t t.
Proof. induction t; constructor; [now left|assumption]. Qed.

End WholeTarget.




(* ===================================================================== *)
(** * Further properties: codes and the bind handler *)
(* ===================================================================== *)

Section CodeFacts.
Import JS Checksum Sql Parser Pool Server.

Lemma fullCode_eq prefix b c :
  fullCode prefix b c = Listing.query_prefix prefix ++ b ++ c ++ "#".
Proof. reflexivity. Qed.

Lemma parse_Some_length s m :
  parseUssdDigits s = Some m -> 4 <= String.length s.
Proof.
  induction s as [|a t IH]; [discriminate|]. cbn [parseUssdDigits].
  destruct (match_here (String a t)) eqn:M.
  - intros _. destruct t as [|b [|c [|d r]]]; try discriminate M.
    cbn [String.length]. lia.
  - intros H. apply IH in H. cbn [String.length]. lia.
Qed.

(** An attempt at the start of [p] is not changed by text appended after
    a '#'. *)
Lemma match_here_append p s :
  4 < String.length p \/ match_here p <> None ->
  match_here (p ++ String "#" s) = match_here p.
Proof.
  intros H.
  destruct p as [|a [|b [|c [|d [|e r]]]]]; cbn [String.length] in H;
    try (destruct H as [H|H]; [lia|now elim H]); reflexivity.
Qed.

End CodeFacts.

(** X1. The formatter and the parser are inverse on well-formed codes:
    for a base of three digits, a check of one digit and a prefix (after
    defaulting) without '#', parsing [fullCode prefix base check] gives
    back the base and the check. *)
Theorem X1_full_code_round_trip (prefix : JS.field) (b c : string) (d : ascii) :
  String.length b = 3 ->
  forallb JS.isDigit (list_ascii_of_string b) = true ->
  JS.isDigit d = true -> c = String d "" ->
  no_hash (Listing.query_prefix prefix) = true ->
  Parser.parseUssdDigits (Parser.fullCode prefix b c) = Some (b, c).
Proof.
  intros HL HD Hd -> HN. rewrite fullCode_eq.
  destruct (three_digits_inv b HL HD) as (d1 & d2 & d3 & L1 & L2 & L3 & ->).
  apply isDigit_inv in Hd as (d4 & L4 & ->).
  now apply parse_full_code.
Qed.

Lemma X1_full_code_round_trip_witness :
  Parser.parseUssdDigits (Parser.fullCode None "110" "2") = Some ("110", "2") /\
  Parser.parseUssdDigits (Parser.fullCode (Some "*384*") "999" "9")
  = Some ("999", "9").
Proof.
  split.
  - exact (X1_full_code_round_trip None "110" "2" "2"%char
             eq_refl eq_refl eq_refl eq_refl eq_refl).
  - exact (X1_full_code_round_trip (Some "*384*") "999" "9" "9"%char
             eq_refl eq_refl eq_refl eq_refl eq_refl).
Defined.

(** X2. Whatever follows the terminator is ignored: when a string parses,
    the same string followed by '#' and any text parses to the same base
    and check. *)
Theorem X2_parse_ignores_text_after_hash (p s : string) (m : string * string) :
  Parser.parseUssdDigits p = Some m ->
  Parser.parseUssdDigits (p ++ String "#" s) = Some m.
Proof.
  induction p as [|a t IH]; [discriminate|].
  intros H. pose proof (parse_Some_length _ _ H) as HL.
  cbn [Parser.parseUssdDigits] in H. cbn [append Parser.parseUssdDigits].
  change (String a (t ++ String "#" s)) with (String a t ++ String "#" s).
  destruct (Parser.match_here (String a t)) as [m0|] eqn:M.
  - rewrite match_here_append by (right; congruence). now rewrite M.
  - pose proof (parse_Some_length _ _ H) as HL'.
    rewrite match_here_append by (left; cbn [String.length]; lia).
    rewrite M. now apply IH.
Qed.

Lemma X2_parse_ignores_text_after_hash_witness :
  Parser.parseUssdDigits ("*001*1102" ++ String "#" "*001*1157#")
  = Some ("110", "2").
Proof.
  exact (X2_parse_ignores_text_after_hash "*001*1102" "*001*1157#"
           ("110", "2") eq_refl).
Defined.

Section BindFacts.
Import JS Checksum Sql Parser Pool Server.

Lemma available_In prefix t it :
  In it (Listing.available prefix t) <->
  exists r, In r t /\ allocated r = false /\
            it = Listing.mkAvailable (base r) (checksum r)
                   (fullCode (Some (Listing.query_prefix prefix))
                      (base r) (checksum r)).
Proof.
  unfold Listing.available. rewrite in_map_iff. split.
  - intros (r & <- & Hr). apply (proj1 (order_by_base_In _ _)) in Hr.
    apply filter_In in Hr as [Hr Ha]. apply negb_true_iff in Ha.
    now exists r.
  - intros (r & Hr & Ha & ->). exists r. split; [reflexivity|].
    apply (proj2 (order_by_base_In _ _)). apply filter_In.
    split; [assumption|].
    now rewrite Ha.
Qed.

Lemma query_prefix_idem prefix :
  Listing.query_prefix (Some (Listing.query_prefix prefix))
  = Listing.query_prefix prefix.
Proof.
  unfold Listing.query_prefix, truthy.
  destruct prefix as [[|a p]|]; reflexivity.
Qed.

(** Rows other than those of base [b] are as before the update. *)
Lemma update_by_base_other b ty id now t x :
  In x t -> base x <> b -> In x (update_by_base b ty id now t).
Proof.
  intros Hin Hb. unfold update_by_base. apply in_map_iff. exists x.
  split; [|assumption]. destruct (String.eqb_spec (base x) b); [contradiction|reflexivity].
Qed.

Lemma update_by_base_In b ty id now t x :
  In x (update_by_base b ty id now t) ->
  (In x t /\ base x <> b) \/
  (exists r, In r t /\ base r = b /\ x = claim_row ty id now r).
Proof.
  unfold update_by_base. intros H. apply in_map_iff in H as (r & E & Hr).
  destruct (String.eqb_spec (base r) b) as [Eb|Nb]; subst x.
  - right. now exists r.
  - left. now split.
Qed.

End BindFacts.



Section OutcomeFacts.
Import JS Checksum Sql Parser Pool Server.

Lemma slot_None b t : ~ In b (map base t) -> slot b t = None.
Proof.
  unfold slot. induction t as [|x t IH]; [reflexivity|]. cbn [map In find].
  intros H. destruct (String.eqb_spec (base x) b) as [E|N].
  - exfalso. apply H. now left.
  - apply IH. intros H'. apply H. now right.
Qed.

(** A run of a handler whose target does not resolve: no statement. *)
Lemma run_unresolved h rq t m :
  handler h ->
  resolveTarget (rq_level rq) (rq_sacco_id rq) (rq_matatu_id rq) = Thrown m ->
  exists status e, run (h rq) t = (Failure status e, t, []).
Proof.
  intros [->| ->] HR; unfold assign_next, bind_from_pool;
    (destruct (_ =? "CASHIER")%string; [now eexists _, _|]);
    rewrite HR; now eexists _, _.
Qed.

Lemma handler_failure_status h rq t status e :
  handler h ->
  result_of (run (h rq) t) = Failure status e -> status = 400 \/ status = 500.
Proof.
  unfold result_of.
  intros [->| ->]; unfold assign_next, bind_from_pool;
    (destruct (_ =? "CASHIER")%string;
     [cbn; intros H; injection H as <- _; now left|]);
    (destruct (resolveTarget _ _ _) as [[ty id]|m];
     [|cbn; intros H; injection H as <- _; now right]).
  - cbn [run]. destruct (select_next_free t) as [[b c]|]; cbn.
    + discriminate.
    + intros H; injection H as <- _; now left.
  - destruct (parseUssdDigits _) as [[pb pc]|];
      [|cbn; intros H; injection H as <- _; now left].
    destruct (negb _); [cbn; intros H; injection H as <- _; now left|].
    cbn [run]. destruct (select_by_base pb t) as [[[|] c]|]; cbn;
      try discriminate; intros H; injection H as <- _; now left.
Qed.

End OutcomeFacts.

(** X4. Binding a code whose base was never seeded: for any three digits
    that are the base of no row, the code made of a prefix without '#',
    the base, its correct checksum and '#', with a target that resolves,
    is answered "base not in pool" (status 400) after one read, and the
    table is unchanged. *)
Theorem X4_bind_unknown_base (rq : Server.request) (t : Pool.table)
    (p : string) (d1 d2 d3 : nat) (ty : Pool.level_t) (id : string) :
  d1 < 10 -> d2 < 10 -> d3 < 10 ->
  no_hash p = true ->
  ~ In (base_of_digits d1 d2 d3) (map Pool.base t) ->
  Server.rq_ussd_code rq
  = p ++ base_of_digits d1 d2 d3
      ++ Checksum.bind_want (base_of_digits d1 d2 d3) ++ "#" ->
  Server.resolveTarget (Server.rq_level rq) (Server.rq_sacco_id rq)
    (Server.rq_matatu_id rq) = JS.Returned (ty, id) ->
  Server.run (Server.bind_from_pool rq) t
  = (Server.Failure 400 "base not in pool", t,
     [Server.ReadByBase (base_of_digits d1 d2 d3)]).
Proof.
  intros L1 L2 L3 HN Hb HC HR.
  set (b := base_of_digits d1 d2 d3) in *.
  assert (EW : Checksum.bind_want b
               = String (JS.digitChar (Checksum.digitalRoot b)) "").
  { unfold Checksum.bind_want. apply String_of_nat_digit.
    pose proof (digitalRoot_le9 b). lia. }
  assert (HP : Parser.parseUssdDigits (Server.rq_ussd_code rq)
               = Some (b, Checksum.bind_want b)).
  { rewrite HC, EW. apply parse_full_code; auto.
    pose proof (digitalRoot_le9 b). lia. }
  rewrite (run_bind_from_pool rq t ty id HR), HP, String.eqb_refl.
  cbn [negb]. rewrite select_by_base_slot, (slot_None b t Hb). reflexivity.
Qed.

Lemma X4_bind_unknown_base_witness :
  Server.run (Server.bind_from_pool (Example.matatu_M1_bind "*001*5005#"))
    Example.pool
  = (Server.Failure 400 "base not in pool", Example.pool,
     [Server.ReadByBase "500"]).
Proof.
  refine (X4_bind_unknown_base (Example.matatu_M1_bind "*001*5005#")
            Example.pool "*001*" 5 0 0 Pool.MATATU "M1"
            ltac:(lia) ltac:(lia) ltac:(lia) eq_refl _ eq_refl eq_refl).
  simpl. intuition discriminate.
Defined.



Section FrameFacts.
Import JS Pool Server.

Lemma map_checksum_update b ty id now t :
  map checksum (update_by_base b ty id now t) = map checksum t.
Proof.
  unfold update_by_base. rewrite map_map. apply map_ext.
  intros r. now destruct (base r =? b)%string.
Qed.

Lemma update_keeps_never_released b ty id now t0 t :
  Forall2 never_released t0 t ->
  Forall2 never_released t0 (update_by_base b ty id now t).
Proof.
  intros HF. unfold update_by_base.
  induction HF as [|r0 r t0 t [Hb Ha] HF IH]; cbn [map]; constructor;
    [|exact IH].
  destruct (base r =? b)%string; split; auto.
Qed.

Lemma never_released_refl t : Forall2 never_released t t.
Proof. induction t; constructor; [now split|assumption]. Qed.

Lemma slot_never_released b t0 t r0 :
  Forall2 never_released t0 t -> slot b t0 = Some r0 ->
  exists r, slot b t = Some r /\ never_released r0 r.
Proof.
  unfold slot. intros HF. induction HF as [|x0 x t0 t [Hb Ha] HF IH]; cbn [find].
  - discriminate.
  - rewrite Hb. destruct (base x0 =? b)%string; [|exact IH].
    intros E. injection E as <-. exists x. now split.
Qed.

Lemma unallocated_never_released t0 t :
  Forall2 never_released t0 t ->
  List.length (unallocated t) <= List.length (unallocated t0).
Proof.
  unfold unallocated. intros HF.
  induction HF as [|x0 x t0 t [Hb Ha] HF IH]; cbn [filter]; [lia|].
  destruct (allocated x0) eqn:E0.
  - rewrite (Ha eq_refl). cbn [negb]. exact IH.
  - destruct (allocated x); cbn [negb List.length]; lia.
Qed.

End FrameFacts.

(** X6. The handlers never add, remove or rename a row: under every
    interleaving of two requests the table keeps its list of bases and of
    checksums, row for row, and so its length and its primary key. *)
Theorem X6_rows_keep_base_and_checksum (t : Pool.table)
    (hA hB : Server.request -> Server.prog Server.response)
    (rqA rqB : Server.request) (sched : list Server.caller) :
  handler hA -> handler hB ->
  let s := Server.store
             (Server.run_sched sched (Server.mkConfig t (hA rqA) (hB rqB))) in
  map Pool.base s = map Pool.base t /\
  map Pool.checksum s = map Pool.checksum t /\
  List.length s = List.length t /\
  (Pool.primary_key t -> Pool.primary_key s).
Proof.
  intros HA HB s.
  assert (H : map Pool.base s = map Pool.base t
              /\ map Pool.checksum s = map Pool.checksum t).
  { unfold s.
    apply (run_sched_preserves live_level live_level
             (fun s => map Pool.base s = map Pool.base t
                       /\ map Pool.checksum s = map Pool.checksum t));
      cbn [Server.left_A Server.left_B Server.store].
    - intros b ty id now t0 _ [E1 E2].
      now rewrite map_base_update, map_checksum_update.
    - intros b ty id now t0 _ [E1 E2].
      now rewrite map_base_update, map_checksum_update.
    - now apply handler_writes_live.
    - now apply handler_writes_live.
    - now split. }
  destruct H as [E1 E2]. split; [exact E1|]. split; [exact E2|]. split.
  - rewrite <- (length_map Pool.base s), E1. apply length_map.
  - unfold Pool.primary_key. now rewrite E1.
Qed.

Lemma X6_rows_keep_base_and_checksum_witness :
  map Pool.base
    (Server.store
       (Server.run_sched
          [Server.CallerB; Server.CallerA; Server.CallerA; Server.CallerB]
          (Server.mkConfig Example.pool
             (Server.assign_next Example.sacco_A1)
             (Server.bind_from_pool (Example.matatu_M1_bind "*001*1203#")))))
  = ["120"; "105"; "110"; "115"].
Proof.
  exact (proj1 (X6_rows_keep_base_and_checksum Example.pool
                  Server.assign_next Server.bind_from_pool
                  Example.sacco_A1 (Example.matatu_M1_bind "*001*1203#")
                  [Server.CallerB; Server.CallerA; Server.CallerA; Server.CallerB]
                  (or_introl eq_refl) (or_intror eq_refl))).
Defined.

(** X7. No release: under every interleaving of two requests, a slot that
    was allocated stays allocated, and the number of unallocated rows
    never grows. *)
Theorem X7_no_release (t : Pool.table)
    (hA hB : Server.request -> Server.prog Server.response)
    (rqA rqB : Server.request) (sched : list Server.caller) :
  handler hA -> handler hB ->
  let s := Server.store
             (Server.run_sched sched (Server.mkConfig t (hA rqA) (hB rqB))) in
  (forall b r, Pool.slot b t = Some r -> Pool.allocated r = true ->
               exists r', Pool.slot b s = Some r' /\ Pool.allocated r' = true) /\
  List.length (Pool.unallocated s) <= List.length (Pool.unallocated t).
Proof.
  intros HA HB s.
  assert (F : Forall2 never_released t s).
  { unfold s.
    apply (run_sched_preserves live_level live_level
             (Forall2 never_released t));
      cbn [Server.left_A Server.left_B Server.store].
    - intros b ty id now t0 _. apply update_keeps_never_released.
    - intros b ty id now t0 _. apply update_keeps_never_released.
    - now apply handler_writes_live.
    - now apply handler_writes_live.
    - apply never_released_refl. }
  split.
  - intros b r HS Ha.
    destruct (slot_never_released b t s r F HS) as (r' & HS' & _ & Hr').
    exists r'. split; [assumption|now apply Hr'].
  - now apply unallocated_never_released.
Qed.

Lemma X7_no_release_witness :
  exists r',
    Pool.slot "105"
      (Server.store
         (Server.run_sched
            [Server.CallerA; Server.CallerB; Server.CallerA; Server.CallerB]
            (Server.mkConfig Example.pool
               (Server.assign_next Example.sacco_A1)
               (Server.bind_from_pool (Example.matatu_M1_bind "*001*1056#")))))
    = Some r' /\ Pool.allocated r' = true.
Proof.
  exact (proj1 (X7_no_release Example.pool
                  Server.assign_next Server.bind_from_pool
                  Example.sacco_A1 (Example.matatu_M1_bind "*001*1056#")
                  [Server.CallerA; Server.CallerB; Server.CallerA; Server.CallerB]
                  (or_introl eq_refl) (or_intror eq_refl))
           "105" _ eq_refl eq_refl).
Defined.

(* ===================================================================== *)
(** * Further properties: the listings *)
(* ===================================================================== *)

Section InsertionSort.

Variables (A : Type) (le : A -> A -> bool).
Hypothesis le_total : forall x y, le x y = true \/ le y x = true.
Hypothesis le_trans : forall x y z, le x y = true -> le y z = true -> le x z = true.

Lemma insert_with_perm r l : Permutation (r :: l) (insert_with A le r l).
Proof.
  induction l as [|x l IH]; cbn [insert_with]; [reflexivity|].
  destruct (le r x); [reflexivity|].
  rewrite perm_swap. now constructor.
Qed.

Lemma sort_with_perm l : Permutation l (sort_with A le l).
Proof.
  induction l as [|x l IH]; cbn [sort_with fold_right]; [reflexivity|].
  rewrite <- insert_with_perm. now constructor.
Qed.

Lemma insert_with_sorted r l :
  StronglySorted (fun x y => le x y = true) l ->
  StronglySorted (fun x y => le x y = true) (insert_with A le r l).
Proof.
  induction 1 as [|x l HS IH HF]; cbn [insert_with].
  - repeat constructor.
  - destruct (le r x) eqn:E.
    + constructor; [now constructor|]. constructor; [assumption|].
      apply Forall_impl with (P := fun y => le x y = true); [|assumption].
      intros y. now apply le_trans.
    + constructor; [assumption|].
      apply (Permutation_Forall (insert_with_perm r l)).
      constructor; [|assumption].
      destruct (le_total r x); congruence.
Qed.

Lemma sort_with_sorted l :
  StronglySorted (fun x y => le x y = true) (sort_with A le l).
Proof.
  induction l as [|x l IH]; cbn [sort_with fold_right]; [constructor|].
  now apply insert_with_sorted.
Qed.

(** Two sorted lists with the same elements are equal, when the order
    distinguishes the elements. *)
Lemma sorted_unique l1 :
  forall l2,
    (forall x y, In x l1 -> In y l1 -> le x y = true -> le y x = true -> x = y) ->
    StronglySorted (fun x y => le x y = true) l1 ->
    StronglySorted (fun x y => le x y = true) l2 ->
    Permutation l1 l2 -> l1 = l2.
Proof.
  induction l1 as [|a l1 IH]; intros l2 Hanti H1 H2 HP.
  - apply Permutation_nil in HP. now subst.
  - destruct l2 as [|b l2].
    { apply Permutation_sym, Permutation_nil in HP. discriminate. }
    apply StronglySorted_inv in H1 as [H1 F1].
    apply StronglySorted_inv in H2 as [H2 F2].
    assert (Hb : In b (a :: l1))
      by (apply (Permutation_in _ (Permutation_sym HP)); now left).
    assert (Ha : In a (b :: l2)) by (apply (Permutation_in _ HP); now left).
    assert (E : a = b).
    { destruct Hb as [E|Hb]; [assumption|].
      destruct Ha as [E|Ha]; [now symmetry|].
      apply Hanti; [now left|now right| |].
      - rewrite Forall_forall in F1. now apply F1.
      - rewrite Forall_forall in F2. now apply F2. }
    subst b. f_equal. apply IH; auto.
    + intros x y Hx Hy. apply Hanti; now right.
    + now apply Permutation_cons_inv in HP.
Qed.

End InsertionSort.

Section ListingFacts.
Import JS Parser Pool Server.

Lemma order_by_base_sort l : order_by_base l = sort_with row leb_base l.
Proof.
  unfold order_by_base, sort_with. induction l as [|x l IH]; [reflexivity|].
  cbn [fold_right]. rewrite IH. generalize (fold_right (insert_with row leb_base) [] l).
  intros s. induction s as [|y s IHs]; [reflexivity|].
  cbn [insert_by_base insert_with]. unfold leb_base at 1. now rewrite IHs.
Qed.

Lemma leb_base_total x y : leb_base x y = true \/ leb_base y x = true.
Proof. apply String.leb_total. Qed.

Lemma leb_base_trans x y z :
  leb_base x y = true -> leb_base y z = true -> leb_base x z = true.
Proof. apply leb_trans. Qed.

Lemma order_by_time_sort l :
  Listing.order_by_time_desc l = sort_with row at_or_after_row l.
Proof.
  unfold Listing.order_by_time_desc, sort_with.
  induction l as [|x l IH]; [reflexivity|].
  cbn [fold_right]. rewrite IH.
  generalize (fold_right (insert_with row at_or_after_row) [] l).
  intros s. induction s as [|y s IHs]; [reflexivity|].
  cbn [Listing.insert_by_time insert_with]. unfold at_or_after_row at 1.
  now rewrite IHs.
Qed.

Lemma at_or_after_total x y :
  at_or_after_row x y = true \/ at_or_after_row y x = true.
Proof.
  unfold at_or_after_row, Listing.at_or_after.
  destruct (allocated_at x), (allocated_at y); auto.
  destruct (Nat.leb_spec n0 n); [now left|right; apply Nat.leb_le; lia].
Qed.

Lemma at_or_after_trans x y z :
  at_or_after_row x y = true -> at_or_after_row y z = true ->
  at_or_after_row x z = true.
Proof.
  unfold at_or_after_row, Listing.at_or_after.
  destruct (allocated_at x), (allocated_at y), (allocated_at z);
    try congruence.
  rewrite !Nat.leb_le. lia.
Qed.

Lemma filter_split {B} (f : B -> bool) l :
  List.length (filter f l) + List.length (filter (fun x => negb (f x)) l)
  = List.length l.
Proof.
  induction l as [|x l IH]; [reflexivity|]. cbn [filter].
  destruct (f x); cbn [negb List.length]; lia.
Qed.

Lemma primary_key_inj t x y :
  primary_key t -> In x t -> In y t -> base x = base y -> x = y.
Proof.
  intros HK Hx Hy E. apply (In_slot t x HK) in Hx. apply (In_slot t y HK) in Hy.
  rewrite E in Hx. congruence.
Qed.

End ListingFacts.

Section ListingFacts2.
Import JS Parser Pool Server.

Lemma StronglySorted_map {B C} (R : B -> B -> Prop) (R' : C -> C -> Prop)
    (f : B -> C) l :
  (forall x y, In x l -> In y l -> R x y -> R' (f x) (f y)) ->
  StronglySorted R l -> StronglySorted R' (map f l).
Proof.
  intros H HS. induction HS as [|x l HS IH HF]; cbn [map]; constructor.
  - apply IH. intros a b Ha Hb. apply H; now right.
  - rewrite Forall_forall in *. intros y Hy.
    apply in_map_iff in Hy as (z & <- & Hz).
    apply H; [now left|now right|now apply HF].
Qed.

Lemma allocated_list_In prefix t it :
  In it (Listing.allocated_list prefix t) <->
  exists r, In r t /\ allocated r = true /\
            it = Listing.mkAllocated
                   (fullCode (Some (Listing.query_prefix prefix))
                      (base r) (checksum r))
                   (level r) (sacco_id r) (matatu_id r) (allocated_at r).
Proof.
  unfold Listing.allocated_list. rewrite in_map_iff, order_by_time_sort. split.
  - intros (r & <- & Hr).
    apply (Permutation_in _ (Permutation_sym (sort_with_perm _ _ _))) in Hr.
    apply filter_In in Hr as [Hr Ha]. now exists r.
  - intros (r & Hr & Ha & ->). exists r. split; [reflexivity|].
    apply (Permutation_in _ (sort_with_perm _ _ _)). now apply filter_In.
Qed.

End ListingFacts2.

(** X8. The two listings split the table: an item is in the available
    listing exactly when it is made from an unallocated row, in the
    allocated listing exactly when it is made from an allocated row, the
    two lengths add up to the number of rows, the available listing
    ascends by base and the allocated listing descends by allocation
    time. *)
Theorem X8_listings_split_the_table (prefix : JS.field) (t : Pool.table) :
  (forall it,
      In it (Listing.available prefix t) <->
      exists r, In r t /\ Pool.allocated r = false /\
                it = Listing.mkAvailable (Pool.base r) (Pool.checksum r)
                       (Parser.fullCode (Some (Listing.query_prefix prefix))
                          (Pool.base r) (Pool.checksum r))) /\
  (forall it,
      In it (Listing.allocated_list prefix t) <->
      exists r, In r t /\ Pool.allocated r = true /\
                it = Listing.mkAllocated
                       (Parser.fullCode (Some (Listing.query_prefix prefix))
                          (Pool.base r) (Pool.checksum r))
                       (Pool.level r) (Pool.sacco_id r) (Pool.matatu_id r)
                       (Pool.allocated_at r)) /\
  List.length (Listing.available prefix t)
  + List.length (Listing.allocated_list prefix t) = List.length t /\
  StronglySorted
    (fun a b => String.leb (Listing.av_base a) (Listing.av_base b) = true)
    (Listing.available prefix t) /\
  StronglySorted
    (fun a b => Listing.at_or_after (Listing.al_allocated_at a)
                  (Listing.al_allocated_at b) = true)
    (Listing.allocated_list prefix t).
Proof.
  split; [intros it; apply available_In|].
  split; [intros it; apply allocated_list_In|]. split; [|split].
  - unfold Listing.available, Listing.allocated_list.
    rewrite !length_map, order_by_base_sort, order_by_time_sort.
    rewrite <- (Permutation_length (sort_with_perm _ leb_base _)).
    rewrite <- (Permutation_length (sort_with_perm _ at_or_after_row _)).
    unfold Pool.unallocated. rewrite Nat.add_comm. apply filter_split.
  - unfold Listing.available. rewrite order_by_base_sort.
    apply StronglySorted_map
      with (R := fun x y => leb_base x y = true); [auto|].
    apply sort_with_sorted; [apply leb_base_total|apply leb_base_trans].
  - unfold Listing.allocated_list. rewrite order_by_time_sort.
    apply StronglySorted_map
      with (R := fun x y => at_or_after_row x y = true); [auto|].
    apply sort_with_sorted; [apply at_or_after_total|apply at_or_after_trans].
Qed.

(** X9. On a table with its primary key and base format, the available
    listing is strictly ascending in the numeric value of the base: no
    base is listed twice and a lower number always comes first. *)
Theorem X9_available_strictly_ascending (prefix : JS.field) (t : Pool.table) :
  Pool.primary_key t ->
  (forall x, In x t -> Sql.ussd_base_format (Pool.base x) = true) ->
  StronglySorted
    (fun a b => (Sql.int_of_text (Listing.av_base a)
                 < Sql.int_of_text (Listing.av_base b))%Z)
    (Listing.available prefix t).
Proof.
  intros HK HF. unfold Listing.available. rewrite order_by_base_sort.
  set (l := sort_with Pool.row leb_base (Pool.unallocated t)).
  assert (HP : Permutation (Pool.unallocated t) l) by apply sort_with_perm.
  assert (Hin : forall x, In x l -> In x t).
  { intros x Hx. apply (Permutation_in _ (Permutation_sym HP)) in Hx.
    now apply filter_In in Hx. }
  assert (HS : StronglySorted (fun x y => leb_base x y = true) l)
    by (apply sort_with_sorted; [apply leb_base_total|apply leb_base_trans]).
  assert (HN : NoDup l).
  { apply (Permutation_NoDup HP). apply NoDup_filter.
    apply (NoDup_map_inv Pool.base). exact HK. }
  clearbody l. clear HP.
  induction HS as [|x l HS IH HFx]; cbn [map]; constructor.
  - apply IH; [intros y Hy; apply Hin; now right|].
    now inversion HN.
  - rewrite Forall_forall in *. intros it Hit.
    apply in_map_iff in Hit as (y & <- & Hy). cbn [Listing.av_base].
    assert (Hle : String.leb (Pool.base x) (Pool.base y) = true)
      by now apply HFx.
    assert (Hxt : In x t) by (apply Hin; now left).
    assert (Hyt : In y t) by (apply Hin; now right).
    apply leb_numeric in Hle; auto.
    assert (Hne : Sql.int_of_text (Pool.base x) <> Sql.int_of_text (Pool.base y)).
    { intros E.
      assert (E' : Pool.base x = Pool.base y).
      { apply String.leb_antisym; apply leb_numeric; auto; lia. }
      apply (primary_key_inj t x y HK Hxt Hyt) in E'. subst y.
      inversion HN. contradiction. }
    lia.
Qed.

Lemma X9_available_strictly_ascending_witness :
  StronglySorted
    (fun a b => (Sql.int_of_text (Listing.av_base a)
                 < Sql.int_of_text (Listing.av_base b))%Z)
    (Listing.available None Example.pool) /\
  map Listing.av_full_code (Listing.available None Example.pool)
  = ["*001*1102#"; "*001*1157#"; "*001*1203#"].
Proof.
  split; [|reflexivity].
  exact (X9_available_strictly_ascending None Example.pool
           example_pool_key example_pool_format).
Defined.

Section DrainFacts.
Import JS Parser Pool Server.

Lemma update_by_base_no_row b ty id now t :
  ~ In b (map base t) -> update_by_base b ty id now t = t.
Proof. intros H. apply update_by_base_absent. now apply slot_None. Qed.

(** Under the primary key, claiming the base of an unallocated row takes
    exactly that row out of the unallocated ones. *)
Lemma unallocated_update t r ty id now :
  primary_key t -> In r t -> allocated r = false ->
  Permutation (unallocated t)
    (r :: unallocated (update_by_base (base r) ty id now t)).
Proof.
  unfold primary_key. induction t as [|x t IH]; [intros _ []|].
  cbn [map]. intros HK Hin Ha. inversion HK as [|? ? Hx HK']; subst.
  destruct Hin as [->|Hin].
  - unfold unallocated, update_by_base. cbn [map filter].
    rewrite String.eqb_refl, Ha. cbn [negb allocated claim_row].
    fold (update_by_base (base r) ty id now t).
    now rewrite update_by_base_no_row.
  - assert (Hne : base x <> base r).
    { intros E. apply Hx. rewrite E. now apply in_map. }
    specialize (IH HK' Hin Ha).
    unfold unallocated, update_by_base in *. cbn [map filter].
    destruct (String.eqb_spec (base x) (base r)); [contradiction|].
    destruct (allocated x); cbn [negb]; [exact IH|].
    rewrite perm_swap. now constructor.
Qed.

Lemma sorted_tail_after_claim t r s ty id now :
  primary_key t ->
  order_by_base (unallocated t) = r :: s ->
  order_by_base (unallocated (update_by_base (base r) ty id now t)) = s.
Proof.
  intros HK E. rewrite order_by_base_sort in *.
  set (t' := update_by_base (base r) ty id now t).
  pose proof (sort_with_perm row leb_base (unallocated t)) as P. rewrite E in P.
  assert (Hr : In r (unallocated t))
    by (apply (Permutation_in _ (Permutation_sym P)); now left).
  apply filter_In in Hr as [Hr Ha]. apply negb_true_iff in Ha.
  pose proof (unallocated_update t r ty id now HK Hr Ha) as Q. fold t' in Q.
  assert (PS : Permutation s (sort_with row leb_base (unallocated t'))).
  { rewrite <- sort_with_perm. apply Permutation_cons_inv with (a := r).
    now rewrite <- P, <- Q. }
  pose proof (sort_with_sorted row leb_base leb_base_total leb_base_trans
                (unallocated t)) as S.
  rewrite E in S. apply StronglySorted_inv in S as [S _].
  symmetry. apply (sorted_unique row leb_base s); auto.
  - intros x y Hx Hy L1 L2.
    assert (Hin : forall z, In z s -> In z t).
    { intros z Hz.
      assert (Hz' : In z (unallocated t))
        by (apply (Permutation_in _ (Permutation_sym P)); now right).
      now apply filter_In in Hz'. }
    apply (primary_key_inj t); auto.
    now apply String.leb_antisym.
  - apply sort_with_sorted; [apply leb_base_total|apply leb_base_trans].
Qed.

Lemma pool_available_nil t : pool_available t = [] -> select_next_free t = None.
Proof.
  unfold pool_available, select_next_free.
  now destruct (order_by_base (unallocated t)).
Qed.

(** The head of a sorted list is the element that nothing else comes
    before. *)
Lemma sort_with_head {B} (le : B -> B -> bool) l r :
  (forall x y, le x y = true \/ le y x = true) ->
  (forall x y z, le x y = true -> le y z = true -> le x z = true) ->
  In r l -> (forall x, In x l -> le x r = true -> x = r) ->
  hd_error (sort_with B le l) = Some r.
Proof.
  intros Htot Htr Hr Hfirst.
  pose proof (sort_with_perm B le l) as P.
  pose proof (sort_with_sorted B le Htot Htr l) as S.
  destruct (sort_with B le l) as [|h s].
  - apply Permutation_sym, Permutation_nil in P. subst. destruct Hr.
  - cbn [hd_error]. f_equal.
    assert (Hh : In h l)
      by (apply (Permutation_in _ (Permutation_sym P)); now left).
    apply (Permutation_in _ P) in Hr. destruct Hr as [E|Hr]; [assumption|].
    apply StronglySorted_inv in S as [_ F]. rewrite Forall_forall in F.
    apply Hfirst; [assumption|]. now apply F.
Qed.

End DrainFacts.





(** X12. A supported level without its identifier is refused like an
    unsupported one: when the level is SACCO and [sacco_id] is absent or
    empty, or MATATU and [matatu_id] is absent or empty (whatever the other
    identifier holds), both handlers answer status 500 with the message of
    [resolveTarget], send no statement and leave the table as it was. *)
Theorem X12_missing_identifier (h : Server.request -> Server.prog Server.response)
    (rq : Server.request) (t : Pool.table) :
  handler h ->
  (JS.toUpperCase (JS.orEmpty (Server.rq_level rq)) = "SACCO" /\
   JS.truthy (Server.rq_sacco_id rq) = None) \/
  (JS.toUpperCase (JS.orEmpty (Server.rq_level rq)) = "MATATU" /\
   JS.truthy (Server.rq_matatu_id rq) = None) ->
  Server.run (h rq) t
  = (Server.Failure 500
       "level must be SACCO or MATATU (CASHIER no longer supported)", t, []).
Proof.
  intros Hh HL.
  assert (HR : Server.resolveTarget (Server.rq_level rq) (Server.rq_sacco_id rq)
                 (Server.rq_matatu_id rq)
               = JS.Thrown
                   "level must be SACCO or MATATU (CASHIER no longer supported)").
  { unfold Server.resolveTarget.
    destruct HL as [[E N]|[E N]]; rewrite E, N; cbn.
    - now destruct (JS.truthy (Server.rq_matatu_id rq)).
    - reflexivity. }
  assert (HC : (JS.toUpperCase (JS.orEmpty (Server.rq_level rq)) =? "CASHIER")%string
               = false)
    by (destruct HL as [[E _]|[E _]]; now rewrite E).
  destruct Hh as [->| ->]; unfold Server.assign_next, Server.bind_from_pool;
    now rewrite HC, HR.
Qed.

Lemma X12_missing_identifier_witness :
  Server.run
    (Server.assign_next
       (Server.mkReq (Some "sacco") None (Some "M1") None None "undefined" 5))
    Example.pool
  = (Server.Failure 500
       "level must be SACCO or MATATU (CASHIER no longer supported)",
     Example.pool, []).
Proof.
  exact (X12_missing_identifier Server.assign_next
           (Server.mkReq (Some "sacco") None (Some "M1") None None "undefined" 5)
           Example.pool (or_introl eq_refl)
           (or_introl (conj eq_refl eq_refl))).
Defined.

(** X13. The admin gate in front of the pool handlers: the answer is 401
    "Unauthorized" exactly when the [x-admin-token] header is absent,
    empty or different from the configured token, and then no statement
    reaches the store; otherwise the run is that of the handler.  With an
    empty configured token every request is refused. *)
Theorem X13_admin_gate (ADMIN_TOKEN : string) (header : JS.field)
    (h : Server.request -> Server.prog Server.response)
    (rq : Server.request) (t : Pool.table) :
  handler h ->
  let o := Server.run (Listing.requireAdmin ADMIN_TOKEN header (h rq)) t in
  (Server.result_of o = Server.Failure 401 "Unauthorized" <->
   JS.orEmpty header = "" \/ JS.orEmpty header <> ADMIN_TOKEN) /\
  (Server.result_of o = Server.Failure 401 "Unauthorized" ->
   Server.table_of o = t /\ Server.log_of o = []) /\
  (header = Some ADMIN_TOKEN -> ADMIN_TOKEN <> "" ->
   o = Server.run (h rq) t) /\
  (ADMIN_TOKEN = "" -> o = (Server.Failure 401 "Unauthorized", t, [])).
Proof.
  intros Hh o. unfold o, Listing.requireAdmin.
  destruct (String.eqb_spec (JS.orEmpty header) "") as [E0|N0]; cbn [orb].
  { split; [split; auto|]. split; [auto|]. split; [|auto].
    intros -> N. now elim N. }
  destruct (String.eqb_spec (JS.orEmpty header) ADMIN_TOKEN) as [E|N];
    cbn [negb].
  - split; [|split; [|split]].
    + split.
      * intros H. apply handler_failure_status in H; [|assumption]. lia.
      * intros [H|H]; contradiction.
    + intros H. apply handler_failure_status in H; [|assumption]. lia.
    + reflexivity.
    + intros ->. now elim N0.
  - split; [split; auto|]. split; [auto|]. split; [|auto].
    intros -> _. now elim N.
Qed.

Lemma X13_admin_gate_witness :
  Server.run (Listing.requireAdmin "secret" (Some "guess")
                (Server.assign_next Example.sacco_A1)) Example.pool
  = (Server.Failure 401 "Unauthorized", Example.pool, []) /\
  Server.run (Listing.requireAdmin "secret" (Some "secret")
                (Server.assign_next Example.sacco_A1)) Example.pool
  = Server.run (Server.assign_next Example.sacco_A1) Example.pool.
Proof.
  split.
  - destruct (X13_admin_gate "secret" (Some "guess") Server.assign_next
                Example.sacco_A1 Example.pool (or_introl eq_refl))
      as ([_ H1] & H2 & _).
    assert (H : Server.result_of
                  (Server.run (Listing.requireAdmin "secret" (Some "guess")
                                 (Server.assign_next Example.sacco_A1))
                     Example.pool)
                = Server.Failure 401 "Unauthorized")
      by (apply H1; right; discriminate).
    reflexivity.
  - exact (proj1 (proj2 (proj2 (X13_admin_gate "secret" (Some "secret")
                                  Server.assign_next Example.sacco_A1
                                  Example.pool (or_introl eq_refl))))
             eq_refl ltac:(discriminate)).
Defined.

(* ===================================================================== *)
(** * Further properties: the table constraints *)
(* ===================================================================== *)

(** X14. What [ussd_allocated_fields] admits, NULLs included: a row passes
    exactly when it is unallocated with level and the three identifiers
    all NULL, or allocated with exactly one identifier set and a level
    that is either that identifier's level or NULL.  (A comparison with a
    NULL level is NULL, and a CHECK rejects only FALSE: the constraint does
    not force an allocated row to have a level.) *)
Theorem X14_allocated_fields_admits (r : Pool.row) :
  Pool.ussd_allocated_fields r = true <->
  (Pool.allocated r = false /\ Pool.level r = None /\ Pool.sacco_id r = None /\
   Pool.matatu_id r = None /\ Pool.cashier_id r = None) \/
  (Pool.allocated r = true /\
   ((Pool.sacco_id r <> None /\ Pool.matatu_id r = None /\
     Pool.cashier_id r = None /\
     (Pool.level r = None \/ Pool.level r = Some Pool.SACCO)) \/
    (Pool.matatu_id r <> None /\ Pool.sacco_id r = None /\
     Pool.cashier_id r = None /\
     (Pool.level r = None \/ Pool.level r = Some Pool.MATATU)) \/
    (Pool.cashier_id r <> None /\ Pool.sacco_id r = None /\
     Pool.matatu_id r = None /\
     (Pool.level r = None \/ Pool.level r = Some Pool.CASHIER)))).
Proof.
  destruct r as [b c al lv s m ca tm]. unfold Pool.ussd_allocated_fields.
  cbn [Pool.allocated Pool.level Pool.sacco_id Pool.matatu_id Pool.cashier_id].
  unfold Pool.level_is, Pool.is_null, Pool.is_not_null.
  cbn [Pool.level].
  destruct al, lv as [[| |]|], s, m, ca; cbn; split;
    try discriminate; try reflexivity;
    try (intros _; intuition (discriminate || congruence));
    intros H; exfalso; intuition (discriminate || congruence).
Qed.

Section FormatFacts.
Import JS Checksum Sql Pool.

Lemma bind_want_base_of_digits d1 d2 d3 :
  d1 < 10 -> d2 < 10 -> d3 < 10 ->
  bind_want (base_of_digits d1 d2 d3)
  = String (digitChar (closed_form (d1 + d2 + d3))) "".
Proof.
  intros L1 L2 L3. unfold bind_want, digitalRoot.
  rewrite sumDigits_base_of_digits, digitalRoot_loop_closed by assumption.
  apply String_of_nat_digit. pose proof (closed_form_le9 (d1 + d2 + d3)). lia.
Qed.

Lemma closed_form_pos s : s <> 0 -> 1 <= closed_form s.
Proof. unfold closed_form. destruct (Nat.eqb_spec s 0); [contradiction|lia]. Qed.

(** A well-formed base with the checksum the server recomputes passes
    the three format constraints. *)
Lemma format_of_server_check r :
  ussd_base_format (base r) = true /\ checksum r = bind_want (base r) ->
  row_format r = true.
Proof.
  intros [HB HC]. unfold row_format. rewrite HB. cbn [andb].
  destruct (ussd_base_format_inv _ HB)
    as (d1 & d2 & d3 & L1 & L2 & L3 & EB & NZ).
  rewrite HC, EB, bind_want_base_of_digits by assumption.
  pose proof (closed_form_le9 (d1 + d2 + d3)) as Hle.
  pose proof (closed_form_pos _ NZ) as Hpos.
  assert (Hcf : closed_form (d1 + d2 + d3) = 1 + (d1 + d2 + d3 - 1) mod 9).
  { unfold closed_form. destruct (Nat.eqb_spec (d1 + d2 + d3) 0);
      [contradiction|reflexivity]. }
  apply andb_true_iff. split.
  + unfold ussd_checksum_format.
    rewrite isDigit_digitChar by lia. cbn [andb]. apply negb_true_iff.
    apply Ascii.eqb_neq. intros E.
    assert (E' : NumberOr0 (digitChar (closed_form (d1 + d2 + d3)))
                 = NumberOr0 "0"%char) by now rewrite E.
    rewrite NumberOr0_digitChar in E' by lia.
    change (NumberOr0 "0"%char) with 0 in E'. lia.
  + unfold ussd_checksum_matches_base, int_of_text, digit_at,
      base_of_digits.
    cbn [list_ascii_of_string fold_left String.get Nat.sub].
    rewrite !NumberOr0_digitChar by (assumption || lia).
    apply Z.eqb_eq. rewrite Z.rem_mod_nonneg by lia. rewrite Hcf.
    rewrite Nat2Z.inj_add, Nat2Z.inj_mod.
    replace (Z.of_nat (d1 + d2 + d3 - 1))
      with (Z.of_nat d1 + Z.of_nat d2 + Z.of_nat d3 - 1)%Z by lia.
    change (Z.of_nat 9) with 9%Z. change (Z.of_nat 1) with 1%Z. lia.
Qed.

End FormatFacts.

(** X15. The format constraints of the table and the checksum test of
    bind-from-pool agree: a row passes [ussd_base_format],
    [ussd_checksum_format] and [ussd_checksum_matches_base] exactly when
    its base is three digits, not 000, and its checksum is the string the
    server recomputes for that base. *)
Theorem X15_constraints_agree_with_server (r : Pool.row) :
  Pool.row_format r = true <->
  Sql.ussd_base_format (Pool.base r) = true /\
  Pool.checksum r = Checksum.bind_want (Pool.base r).
Proof.
  split.
  - intros H. split.
    + unfold Pool.row_format in H. rewrite !andb_true_iff in H. tauto.
    + symmetry. now destruct (row_format_inv r H)
        as (d1 & d2 & d3 & d4 & _ & _ & _ & _ & _ & _ & E).
  - apply format_of_server_check.
Qed.

(** X26. Served one at a time, requests never touch an allocated slot: on
    a table with its primary key, after any sequence of assign-next and
    bind-from-pool requests, each run alone, a slot that was allocated
    holds the very row it held (target and allocation time included). *)
Theorem X26_served_in_turn_keeps_owner
    (ps : list (Server.prog Server.response)) (t : Pool.table)
    (b : string) (r : Pool.row) :
  (forall p, In p ps -> exists h rq, handler h /\ p = h rq) ->
  Pool.primary_key t ->
  Pool.slot b t = Some r -> Pool.allocated r = true ->
  Pool.slot b (serve ps t) = Some r.
Proof.
  revert t. induction ps as [|p ps IH]; intros t Hps HK HS Ha; [exact HS|].
  cbn [serve].
  destruct (Hps p (or_introl eq_refl)) as (h & rq & Hh & ->).
  assert (Hps' : forall p, In p ps -> exists h rq, handler h /\ p = h rq)
    by (intros p Hp; apply Hps; now right).
  set (o := Server.run (h rq) t).
  assert (E : Server.table_of o = t \/
              exists b' ty id now,
                b' <> b /\ Server.table_of o = Pool.update_by_base b' ty id now t).
  { destruct (Server.resolveTarget (Server.rq_level rq) (Server.rq_sacco_id rq)
                (Server.rq_matatu_id rq)) as [[ty id]|m] eqn:HR.
    - destruct (run_handler_cases h rq t ty id Hh HR) as [N|(b' & _ & W)];
        fold o in N || fold o in W.
      + left. now destruct N.
      + destruct W as ((r' & Hr' & Hb' & Ha') & ET & _).
        right. exists b', ty, id, (Server.rq_now rq). split; [|exact ET].
        intros ->. destruct (slot_In _ _ _ HS) as [Hr Hb].
        assert (r' = r) by (apply (primary_key_inj t); auto; congruence).
        subst r'. congruence.
    - destruct (run_unresolved h rq t m Hh HR) as (status & e & E).
      left. unfold o. now rewrite E. }
  apply IH; auto.
  - destruct E as [->|(b' & ty & id & now & _ & ->)]; [assumption|].
    unfold Pool.primary_key. now rewrite map_base_update.
  - destruct E as [->|(b' & ty & id & now & Hne & ->)]; [assumption|].
    rewrite slot_update_by_base.
    destruct (String.eqb_spec b b'); [congruence|assumption].
Qed.

Lemma X26_served_in_turn_keeps_owner_witness :
  Pool.slot "105"
    (serve [Server.assign_next Example.sacco_A1;
            Server.bind_from_pool (Example.matatu_M1_bind "*001*1056#");
            Server.assign_next Example.sacco_A1] Example.pool)
  = Some (Pool.mkRow "105" "6" true (Some Pool.SACCO) (Some "S0")
            None None (Some 1)).
Proof.
  apply X26_served_in_turn_keeps_owner;
    [|exact example_pool_key|reflexivity|reflexivity].
  intros p Hp. simpl in Hp.
  destruct Hp as [<-|[<-|[<-|[]]]].
  - exists Server.assign_next, Example.sacco_A1. split; [now left|reflexivity].
  - exists Server.bind_from_pool, (Example.matatu_M1_bind "*001*1056#").
    split; [now right|reflexivity].
  - exists Server.assign_next, Example.sacco_A1. split; [now left|reflexivity].
Defined.

Example seed_default_first : Seed.rows None None None <> [] /\
  hd_error (Seed.rows None None None) = Some (Pool.seeded_row "110" "2").
Proof. split; [discriminate|reflexivity]. Qed.
Example seed_staging : hd_error (Seed.rows (Some "Staging") None None)
  = Some (Pool.seeded_row "300" "3").
Proof. reflexivity. Qed.
Example seed_rows_eq_pool_rows : Seed.rows None None None = Seed.pool_rows.
Proof. reflexivity. Qed.
Example seed_row_7 : Seed.seed_row 7 = Seed.schema_row 7.
Proof. reflexivity. Qed.
Example seed_row_neg : Pool.base (Seed.seed_row (-5)) = "0-5".
Proof. reflexivity. Qed.
Example schema_rows_len : List.length Seed.schema_rows = 999.
Proof. reflexivity. Qed.

(* ===================================================================== *)
(** * Further properties: seeding *)
(* ===================================================================== *)

Section SeedFacts.
Import JS Checksum Sql Pool.

Lemma length_append s t :
  String.length (s ++ t) = String.length s + String.length t.
Proof. induction s; cbn [append String.length Nat.add]; congruence. Qed.

Lemma String_of_nat_length_pos n : 1 <= String.length (String_of_nat n).
Proof.
  rewrite String_of_nat_eq. destruct (n <? 10); [cbn; lia|].
  rewrite length_append. cbn [String.length]. lia.
Qed.

Lemma String_of_nat_length_ge4 n :
  1000 <= n -> 4 <= String.length (String_of_nat n).
Proof.
  intros H.
  assert (H1 : 100 <= n / 10) by (apply Nat.div_le_lower_bound; lia).
  assert (H2 : 10 <= n / 10 / 10) by (apply Nat.div_le_lower_bound; lia).
  assert (H3 : 1 <= n / 10 / 10 / 10) by (apply Nat.div_le_lower_bound; lia).
  rewrite String_of_nat_eq.
  destruct (Nat.ltb_spec n 10); [lia|]. rewrite length_append.
  rewrite String_of_nat_eq.
  destruct (Nat.ltb_spec (n / 10) 10); [lia|]. rewrite length_append.
  rewrite String_of_nat_eq.
  destruct (Nat.ltb_spec (n / 10 / 10) 10); [lia|]. rewrite length_append.
  pose proof (String_of_nat_length_pos (n / 10 / 10 / 10)).
  cbn [String.length]. lia.
Qed.

(** The numeral of a number below 1000, filled to three characters, is
    the string of its three decimal digits. *)
Lemma padStart_below_1000 n :
  n < 1000 ->
  Seed.padStart 3 "0" (String_of_nat n)
  = base_of_digits (n / 100) ((n / 10) mod 10) (n mod 10).
Proof.
  intros H. unfold Seed.padStart, base_of_digits.
  rewrite String_of_nat_eq. destruct (Nat.ltb_spec n 10) as [H1|H1].
  - rewrite (Nat.div_small n 100), (Nat.div_small n 10), (Nat.mod_small n 10)
      by lia.
    reflexivity.
  - rewrite String_of_nat_eq. destruct (Nat.ltb_spec (n / 10) 10) as [H2|H2].
    + assert (n < 100)
        by (pose proof (Nat.div_mod_eq n 10);
            pose proof (Nat.mod_upper_bound n 10); lia).
      rewrite (Nat.div_small n 100), (Nat.mod_small (n / 10) 10) by lia.
      reflexivity.
    + rewrite String_of_nat_eq.
      assert (H3 : n / 10 / 10 < 10).
      { apply Nat.Div0.div_lt_upper_bound.
        apply Nat.Div0.div_lt_upper_bound. lia. }
      apply Nat.ltb_lt in H3. rewrite H3. apply Nat.ltb_lt in H3.
      rewrite Nat.Div0.div_div. change (10 * 10) with 100. reflexivity.
Qed.

Lemma digits_below_1000 n :
  n < 1000 ->
  n / 100 < 10 /\ (n / 10) mod 10 < 10 /\ n mod 10 < 10 /\
  100 * (n / 100) + 10 * ((n / 10) mod 10) + n mod 10 = n.
Proof.
  intros H.
  assert (n / 100 < 10) by (apply Nat.Div0.div_lt_upper_bound; lia).
  pose proof (Nat.mod_upper_bound (n / 10) 10 ltac:(lia)).
  pose proof (Nat.mod_upper_bound n 10 ltac:(lia)).
  repeat (split; [assumption|]).
  pose proof (Nat.div_mod_eq n 10) as E1.
  pose proof (Nat.div_mod_eq (n / 10) 10) as E2.
  rewrite Nat.Div0.div_div in E2. change (10 * 10) with 100 in E2. lia.
Qed.

Lemma closed_form_digits d1 d2 d3 :
  0 < 100 * d1 + 10 * d2 + d3 ->
  closed_form (d1 + d2 + d3) = 1 + (100 * d1 + 10 * d2 + d3 - 1) mod 9.
Proof.
  intros H. unfold closed_form.
  destruct (Nat.eqb_spec (d1 + d2 + d3) 0); [lia|]. f_equal.
  replace (100 * d1 + 10 * d2 + d3 - 1)
    with (d1 + d2 + d3 - 1 + (11 * d1 + d2) * 9) by lia.
  now rewrite Nat.Div0.mod_add.
Qed.

Lemma seed_row_in_range n :
  1 <= n < 1000 ->
  Seed.seed_row (Z.of_nat n)
  = seeded_row (base_of_digits (n / 100) ((n / 10) mod 10) (n mod 10))
      (String_of_nat (1 + (n - 1) mod 9)).
Proof.
  intros H. unfold Seed.seed_row, Seed.String_of_Z.
  destruct (Z.ltb_spec (Z.of_nat n) 0); [lia|]. rewrite Nat2Z.id.
  rewrite padStart_below_1000 by lia.
  destruct (digits_below_1000 n) as (L1 & L2 & L3 & E); [lia|].
  unfold seed_digitalRoot.
  rewrite sumDigits_base_of_digits, digitalRoot_loop_closed by assumption.
  rewrite closed_form_digits by lia. now rewrite E.
Qed.

Lemma forallb_isDigit_append s t :
  forallb isDigit (list_ascii_of_string (s ++ t))
  = forallb isDigit (list_ascii_of_string s)
    && forallb isDigit (list_ascii_of_string t).
Proof. now rewrite Checksum.list_ascii_app, forallb_app. Qed.

Lemma seed_row_ok i : (1 <= i <= 999)%Z -> Seed.row_ok (Seed.seed_row i) = true.
Proof.
  intros H. replace i with (Z.of_nat (Z.to_nat i)) by lia.
  set (n := Z.to_nat i). assert (Hn : 1 <= n < 1000) by lia.
  rewrite seed_row_in_range by assumption.
  destruct (digits_below_1000 n) as (L1 & L2 & L3 & E); [lia|].
  unfold Seed.row_ok. apply andb_true_iff. split; [|reflexivity].
  apply format_of_server_check. cbn [base checksum seeded_row]. split.
  - unfold ussd_base_format, base_of_digits.
    cbn [String.length list_ascii_of_string forallb Nat.eqb].
    rewrite !isDigit_digitChar by assumption. cbn [andb].
    apply negb_true_iff, String.eqb_neq. intros E0.
    assert (E1 : sumDigits
                   (base_of_digits (n / 100) ((n / 10) mod 10) (n mod 10))
                 = sumDigits "000") by (unfold base_of_digits; now rewrite E0).
    rewrite sumDigits_base_of_digits in E1 by assumption.
    change (sumDigits "000") with 0 in E1. lia.
  - rewrite bind_want_base_of_digits, closed_form_digits by (assumption || lia).
    rewrite E. apply String_of_nat_digit.
    pose proof (Nat.mod_upper_bound (n - 1) 9). lia.
Qed.

End SeedFacts.

(** X16. The rows of the seeding script against the constraints of the
    table: the row made for the integer [i] (base [String(i)] filled to
    three characters, checksum its digital root, unallocated) passes all
    CHECK constraints exactly when [1 <= i <= 999].  For 0, for a negative
    start and from 1000 on the base is refused by [ussd_base_format]. *)
Theorem X16_seed_row_valid_range (i : Z) :
  (Seed.row_ok (Seed.seed_row i) = true <-> (1 <= i <= 999)%Z) /\
  (Sql.ussd_base_format (Pool.base (Seed.seed_row i)) = true <->
   (1 <= i <= 999)%Z).
Proof.
  pose proof (seed_row_ok i) as In_range.
  assert (Out_range : Sql.ussd_base_format (Pool.base (Seed.seed_row i)) = true ->
                      (1 <= i <= 999)%Z).
  { unfold Seed.seed_row. cbn [Pool.base Pool.seeded_row].
    unfold Sql.ussd_base_format, Seed.padStart, Seed.String_of_Z.
    rewrite !andb_true_iff, negb_true_iff. intros ((HL & HD) & HZ).
    apply Nat.eqb_eq in HL.
    destruct (Z.ltb_spec i 0) as [Hneg|Hnn].
    - rewrite forallb_isDigit_append in HD. apply andb_true_iff in HD as [_ HD].
      discriminate HD.
    - destruct (Z.eq_dec i 0) as [->|Hnz].
      + apply String.eqb_neq in HZ. now elim HZ.
      + destruct (Z_lt_le_dec i 1000) as [|Hbig]; [lia|].
        pose proof (String_of_nat_length_ge4 (Z.to_nat i) ltac:(lia)) as H4.
        rewrite length_append in HL. lia. }
  split; split; auto.
  - intros H. apply Out_range. unfold Seed.row_ok, Pool.row_format in H.
    rewrite !andb_true_iff in H. tauto.
  - intros H. specialize (In_range H). unfold Seed.row_ok, Pool.row_format in In_range.
    rewrite !andb_true_iff in In_range. tauto.
Qed.

Section SeedAgreement.
Import JS Checksum Sql Pool.

Lemma lpad_below_1000 n :
  n < 1000 ->
  Seed.lpad (String_of_nat n) 3 "0"
  = base_of_digits (n / 100) ((n / 10) mod 10) (n mod 10).
Proof.
  intros H. unfold Seed.lpad, base_of_digits.
  rewrite String_of_nat_eq. destruct (Nat.ltb_spec n 10) as [H1|H1].
  - rewrite (Nat.div_small n 100), (Nat.div_small n 10), (Nat.mod_small n 10)
      by lia.
    reflexivity.
  - rewrite String_of_nat_eq. destruct (Nat.ltb_spec (n / 10) 10) as [H2|H2].
    + assert (n < 100)
        by (pose proof (Nat.div_mod_eq n 10);
            pose proof (Nat.mod_upper_bound n 10); lia).
      rewrite (Nat.div_small n 100), (Nat.mod_small (n / 10) 10) by lia.
      reflexivity.
    + rewrite String_of_nat_eq.
      assert (H3 : n / 10 / 10 < 10).
      { apply Nat.Div0.div_lt_upper_bound.
        apply Nat.Div0.div_lt_upper_bound. lia. }
      apply Nat.ltb_lt in H3. rewrite H3. apply Nat.ltb_lt in H3.
      rewrite Nat.Div0.div_div. change (10 * 10) with 100. reflexivity.
Qed.

(** The [digital_root] CTE on a three-digit base. *)
Lemma seed_checksum_base_of_digits d1 d2 d3 :
  d1 < 10 -> d2 < 10 -> d3 < 10 -> 0 < 100 * d1 + 10 * d2 + d3 ->
  seed_checksum (base_of_digits d1 d2 d3)
  = String_of_nat (1 + (100 * d1 + 10 * d2 + d3 - 1) mod 9).
Proof.
  intros L1 L2 L3 Hpos. unfold seed_checksum.
  assert (D : all_digits (base_of_digits d1 d2 d3) = true).
  { unfold all_digits, base_of_digits. cbn [list_ascii_of_string forallb].
    now rewrite !isDigit_digitChar by assumption. }
  rewrite D, int_of_text_base_of_digits by assumption. cbn [negb].
  destruct (Z.eqb_spec (100 * Z.of_nat d1 + 10 * Z.of_nat d2 + Z.of_nat d3) 0);
    [lia|].
  unfold text_of_int. f_equal. rewrite Z.rem_mod_nonneg by lia.
  replace (100 * Z.of_nat d1 + 10 * Z.of_nat d2 + Z.of_nat d3 - 1)%Z
    with (Z.of_nat (100 * d1 + 10 * d2 + d3 - 1)) by lia.
  change 9%Z with (Z.of_nat 9). rewrite <- Nat2Z.inj_mod. lia.
Qed.

Lemma schema_row_in_range n :
  1 <= n < 1000 -> Seed.schema_row (Z.of_nat n) = Seed.seed_row (Z.of_nat n).
Proof.
  intros H. rewrite seed_row_in_range by assumption. unfold Seed.schema_row.
  unfold text_of_int at 1. rewrite Nat2Z.id, lpad_below_1000 by lia.
  f_equal. unfold text_of_int. f_equal.
  rewrite Z.rem_mod_nonneg by lia.
  replace (Z.of_nat n - 1)%Z with (Z.of_nat (n - 1)) by lia.
  change 9%Z with (Z.of_nat 9). rewrite <- Nat2Z.inj_mod. lia.
Qed.

Lemma pool_row_in_range n :
  1 <= n < 1000 -> Seed.pool_row (Z.of_nat n) = Seed.seed_row (Z.of_nat n).
Proof.
  intros H. rewrite seed_row_in_range by assumption. unfold Seed.pool_row.
  unfold text_of_int. rewrite Nat2Z.id, lpad_below_1000 by lia.
  destruct (digits_below_1000 n) as (L1 & L2 & L3 & E); [lia|].
  rewrite seed_checksum_base_of_digits by (assumption || lia).
  now rewrite E.
Qed.

End SeedAgreement.

(** X17. The three seeds agree.  For every integer from 1 to 999 the row
    of the seeding script, the row of the seed at the end of the schema
    and the row of [seed_ussd_pool.sql] are the same row; so a run of the
    script over a range inside 1..999 writes the rows the schema seed has
    for that range. *)
Theorem X17_seeds_agree (start count : Z) :
  (1 <= start)%Z -> (0 <= count)%Z -> (start + count <= 1000)%Z ->
  (forall n, (start <= n < start + count)%Z ->
             Seed.seed_row n = Seed.schema_row n /\
             Seed.seed_row n = Seed.pool_row n) /\
  Seed.rows_from start count
  = map Seed.schema_row (Seed.generate_series start (start + count - 1)).
Proof.
  intros H1 H0 H2.
  assert (A : forall n, (start <= n < start + count)%Z ->
                        Seed.seed_row n = Seed.schema_row n /\
                        Seed.seed_row n = Seed.pool_row n).
  { intros n Hn. replace n with (Z.of_nat (Z.to_nat n)) by lia.
    rewrite schema_row_in_range, pool_row_in_range by lia. now split. }
  split; [exact A|].
  unfold Seed.rows_from, Seed.generate_series. rewrite map_map.
  replace (start + count - 1 - start + 1)%Z with count by lia.
  apply map_ext_in. intros k Hk. apply in_seq in Hk.
  apply A. lia.
Qed.

Lemma X17_seeds_agree_witness :
  Seed.rows None None None = Seed.pool_rows /\
  Seed.rows None None None
  = map Seed.schema_row (Seed.generate_series 110 139).
Proof.
  split; [reflexivity|].
  exact (proj2 (X17_seeds_agree 110 30 ltac:(lia) ltac:(lia) ltac:(lia))).
Defined.

Section InsertFacts.
Import JS Checksum Sql Pool.

Lemma has_base_In b t : Seed.has_base b t = true <-> In b (map base t).
Proof.
  unfold Seed.has_base. rewrite existsb_exists, in_map_iff. split.
  - intros (x & Hx & E). apply String.eqb_eq in E. now exists x.
  - intros (x & E & Hx). exists x. split; [assumption|]. now apply String.eqb_eq.
Qed.

Lemma has_base_false b t : Seed.has_base b t = false <-> ~ In b (map base t).
Proof.
  rewrite <- has_base_In. destruct (Seed.has_base b t); split; congruence.
Qed.

(** The statement on rows that all pass the constraints: it succeeds, the
    old rows stay where they were, and what is added are the new rows whose
    base was missing. *)
Lemma insert_do_nothing_ok new :
  forall t,
    Forall (fun r => Seed.row_ok r = true) new ->
    exists added,
      Seed.insert_do_nothing new t = Some (t ++ added)%list /\
      (forall r, In r added -> In r new /\ ~ In (base r) (map base t)) /\
      (forall r, In r new -> In (base r) (map base (t ++ added)%list)) /\
      (primary_key t -> primary_key (t ++ added)%list).
Proof.
  induction new as [|r new IH]; intros t HF.
  - exists []. rewrite app_nil_r. repeat split; auto. intros r [].
  - inversion HF as [|? ? Hr HF']; subst. cbn [Seed.insert_do_nothing].
    rewrite Hr. cbn [negb].
    destruct (Seed.has_base (base r) t) eqn:HB.
    + destruct (IH t HF') as (added & E & A1 & A2 & A3).
      exists added. split; [exact E|]. split; [|split; [|exact A3]].
      * intros x Hx. destruct (A1 x Hx). split; [now right|assumption].
      * intros x [<-|Hx]; [|now apply A2].
        rewrite map_app. apply in_or_app. left. now apply has_base_In.
    + destruct (IH (t ++ [r])%list HF') as (added & E & A1 & A2 & A3).
      exists (r :: added). rewrite <- app_assoc in E, A2, A3. cbn [app] in *.
      split; [exact E|]. split; [|split].
      * intros x [<-|Hx].
        -- split; [now left|]. now apply has_base_false.
        -- destruct (A1 x Hx) as [H1 H2]. split; [now right|].
           intros H. apply H2. rewrite map_app. apply in_or_app. now left.
      * intros x [<-|Hx]; [|now apply A2].
        rewrite map_app. apply in_or_app. right. now left.
      * intros HK. apply A3. unfold primary_key in *.
        rewrite map_app. cbn [map].
        apply (Permutation_NoDup (Permutation_cons_append _ _)).
        constructor; [now apply has_base_false|exact HK].
Qed.

Lemma insert_do_nothing_present new :
  forall t,
    Forall (fun r => Seed.row_ok r = true) new ->
    (forall r, In r new -> In (base r) (map base t)) ->
    Seed.insert_do_nothing new t = Some t.
Proof.
  induction new as [|r new IH]; intros t HF HP; [reflexivity|].
  inversion HF as [|? ? Hr HF']; subst. cbn [Seed.insert_do_nothing].
  rewrite Hr. cbn [negb].
  rewrite (proj2 (has_base_In (base r) t)) by (apply HP; now left).
  apply IH; [assumption|]. intros x Hx. apply HP. now right.
Qed.

Lemma slot_app_l b t added r :
  slot b t = Some r -> slot b (t ++ added)%list = Some r.
Proof.
  unfold slot. induction t as [|x t IH]; [discriminate|]. cbn [app find].
  destruct (base x =? b)%string; auto.
Qed.

Lemma schema_rows_ok : Forall (fun r => Seed.row_ok r = true) Seed.schema_rows.
Proof. apply Forall_forall. apply forallb_forall. vm_compute. reflexivity. Qed.

Lemma pool_rows_ok : Forall (fun r => Seed.row_ok r = true) Seed.pool_rows.
Proof. apply Forall_forall. apply forallb_forall. vm_compute. reflexivity. Qed.

End InsertFacts.

(** X18. Re-running an SQL seed is harmless.  On any table with its
    primary key, the schema seed (and likewise [seed_ussd_pool.sql]) goes
    through, keeps every existing row as it is (an allocated slot keeps
    its target), adds only rows for bases that were missing, leaves every
    seeded base present and the primary key intact; run again on its own
    result it changes nothing. *)
Theorem X18_sql_seed_is_idempotent (new : list Pool.row) (t : Pool.table) :
  new = Seed.schema_rows \/ new = Seed.pool_rows ->
  Pool.primary_key t ->
  exists added,
    Seed.insert_do_nothing new t = Some (t ++ added)%list /\
    (forall b r, Pool.slot b t = Some r ->
                 Pool.slot b (t ++ added)%list = Some r) /\
    (forall r, In r added ->
               In r new /\ ~ In (Pool.base r) (map Pool.base t)) /\
    (forall r, In r new ->
               In (Pool.base r) (map Pool.base (t ++ added)%list)) /\
    Pool.primary_key (t ++ added)%list /\
    Seed.insert_do_nothing new (t ++ added)%list = Some (t ++ added)%list.
Proof.
  intros Hnew HK.
  assert (HF : Forall (fun r => Seed.row_ok r = true) new)
    by (destruct Hnew as [->| ->]; [apply schema_rows_ok|apply pool_rows_ok]).
  destruct (insert_do_nothing_ok new t HF) as (added & E & A1 & A2 & A3).
  exists added. split; [exact E|]. split.
  { intros b r. apply slot_app_l. }
  split; [exact A1|]. split; [exact A2|]. split; [now apply A3|].
  now apply insert_do_nothing_present.
Qed.

Lemma X18_sql_seed_is_idempotent_witness :
  exists added,
    Seed.insert_do_nothing Seed.pool_rows Example.pool
    = Some (Example.pool ++ added)%list /\
    Pool.slot "105" (Example.pool ++ added)%list
    = Some (Pool.mkRow "105" "6" true (Some Pool.SACCO) (Some "S0")
              None None (Some 1)) /\
    Seed.insert_do_nothing Seed.pool_rows (Example.pool ++ added)%list
    = Some (Example.pool ++ added)%list.
Proof.
  destruct (X18_sql_seed_is_idempotent Seed.pool_rows Example.pool
              (or_intror eq_refl) example_pool_key)
    as (added & E & HS & _ & _ & _ & HI).
  exists added. split; [exact E|]. split; [now apply HS|exact HI].
Defined.

Section UpsertFacts.
Import JS Checksum Sql Pool.

Lemma merge_of_allocated_fails x r :
  allocated x = true -> ussd_allocated_fields x = true -> allocated r = false ->
  ussd_allocated_fields (Seed.merge_row x r) = false.
Proof.
  destruct x as [b c al lv s m ca tm]. unfold Seed.merge_row.
  cbn [allocated level sacco_id matatu_id cashier_id allocated_at].
  intros -> H ->. revert H. unfold ussd_allocated_fields.
  unfold level_is, is_null, is_not_null.
  cbn [allocated level sacco_id matatu_id cashier_id].
  destruct lv as [[| |]|], s, m, ca; cbn; congruence.
Qed.

Lemma upsert_over_allocated new :
  forall t x,
    In x t -> allocated x = true -> ussd_allocated_fields x = true ->
    (forall r, In r new -> allocated r = false) ->
    (exists r, In r new /\ base r = base x) ->
    Seed.upsert new t = None.
Proof.
  induction new as [|r new IH]; intros t x Hx Ha Hc Hnew (r0 & Hr0 & Eb).
  - destruct Hr0.
  - cbn [Seed.upsert]. destruct (Seed.row_ok r); cbn [negb]; [|reflexivity].
    assert (Hnew' : forall r, In r new -> allocated r = false)
      by (intros y Hy; apply Hnew; now right).
    destruct (String.eqb_spec (base x) (base r)) as [E|N].
    + rewrite (proj2 (has_base_In (base r) t))
        by (rewrite <- E; now apply in_map).
      match goal with |- (if forallb ?f ?l then _ else _) = _ =>
        destruct (forallb f l) eqn:F; [|reflexivity] end.
      exfalso. rewrite forallb_forall in F.
      specialize (F (Seed.merge_row x r)).
      assert (Hm : In (Seed.merge_row x r)
                     (map (fun y => if (base y =? base r)%string
                                    then Seed.merge_row y r else y) t)).
      { apply in_map_iff. exists x. split; [|assumption].
        now rewrite E, String.eqb_refl. }
      specialize (F Hm). cbn [base Seed.merge_row] in F.
      rewrite String.eqb_refl in F. cbn [negb orb] in F.
      unfold Seed.row_ok in F. apply andb_true_iff in F as [_ F].
      rewrite merge_of_allocated_fails in F; auto. discriminate.
      apply Hnew. now left.
    + assert (Hex : exists r1, In r1 new /\ base r1 = base x).
      { destruct Hr0 as [<-|Hr0]; [congruence|]. now exists r0. }
      destruct (Seed.has_base (base r) t).
      * match goal with |- (if forallb ?f ?l then _ else _) = _ =>
          destruct (forallb f l); [|reflexivity] end.
        apply (IH _ x); auto. apply in_map_iff. exists x.
        split; [|assumption].
        destruct (String.eqb_spec (base x) (base r)); [contradiction|reflexivity].
      * apply (IH _ x); auto. apply in_or_app. now left.
Qed.

Lemma upsert_fresh new :
  forall t,
    Forall (fun r => Seed.row_ok r = true) new ->
    NoDup (map base new) ->
    (forall r, In r new -> ~ In (base r) (map base t)) ->
    Seed.upsert new t = Some (t ++ new)%list.
Proof.
  induction new as [|r new IH]; intros t HF HN Hfresh.
  - now rewrite app_nil_r.
  - inversion HF as [|? ? Hr HF']; subst. cbn [map] in HN.
    inversion HN as [|? ? Hnr HN']; subst.
    cbn [Seed.upsert]. rewrite Hr. cbn [negb].
    rewrite (proj2 (has_base_false (base r) t)) by (apply Hfresh; now left).
    rewrite IH; auto.
    + now rewrite <- app_assoc.
    + intros x Hx. rewrite map_app. cbn [map]. intros H.
      apply in_app_or in H as [H|[H|[]]].
      * apply (Hfresh x); [now right|assumption].
      * apply Hnr. rewrite H. now apply in_map.
Qed.

Lemma int_of_text_seed_base n :
  1 <= n < 1000 ->
  int_of_text (base (Seed.seed_row (Z.of_nat n))) = Z.of_nat n.
Proof.
  intros H. rewrite seed_row_in_range by assumption.
  cbn [base seeded_row].
  destruct (digits_below_1000 n) as (L1 & L2 & L3 & E); [lia|].
  rewrite int_of_text_base_of_digits by assumption. lia.
Qed.

Lemma rows_from_In start count r :
  In r (Seed.rows_from start count) <->
  exists i, (start <= i < start + count)%Z /\ r = Seed.seed_row i.
Proof.
  unfold Seed.rows_from. rewrite in_map_iff. split.
  - intros (k & <- & Hk). apply in_seq in Hk.
    exists (start + Z.of_nat k)%Z. split; [lia|reflexivity].
  - intros (i & Hi & ->). exists (Z.to_nat (i - start)). split.
    + f_equal. lia.
    + apply in_seq. lia.
Qed.

Lemma rows_from_bases_distinct start count :
  (1 <= start)%Z -> (start + count <= 1000)%Z ->
  NoDup (map base (Seed.rows_from start count)).
Proof.
  intros H1 H2. apply (NoDup_map_inv int_of_text).
  unfold Seed.rows_from. rewrite !map_map.
  rewrite map_ext_in with (g := fun k => (start + Z.of_nat k)%Z).
  - apply Finite.Injective_map_NoDup; [|apply seq_NoDup].
    intros a b E. lia.
  - intros k Hk. apply in_seq in Hk.
    replace (start + Z.of_nat k)%Z with (Z.of_nat (Z.to_nat (start + Z.of_nat k)))
      by lia.
    rewrite int_of_text_seed_base by lia. reflexivity.
Qed.

End UpsertFacts.



Section FreshPoolFacts.
Import JS Checksum Sql Pool.

Lemma sort_with_sorted_id {B} (le : B -> B -> bool) l :
  StronglySorted (fun x y => le x y = true) l -> sort_with B le l = l.
Proof.
  induction 1 as [|x l HS IH HF]; [reflexivity|].
  cbn [sort_with fold_right]. fold (sort_with B le l). rewrite IH.
  destruct l as [|y l]; [reflexivity|]. cbn [insert_with].
  inversion HF as [|? ? Hxy _]; subst. now rewrite Hxy.
Qed.

Lemma StronglySorted_map_seq {B} (R : B -> B -> Prop) (f : nat -> B) n :
  forall a,
    (forall i j, a <= i -> i < j -> j < a + n -> R (f i) (f j)) ->
    StronglySorted R (map f (seq a n)).
Proof.
  induction n as [|n IH]; intros a H; cbn [seq map]; constructor.
  - apply IH. intros i j Hi Hij Hj. apply H; lia.
  - apply Forall_forall. intros y Hy. apply in_map_iff in Hy as (j & <- & Hj).
    apply in_seq in Hj. apply H; lia.
Qed.

Lemma seed_bases_ascend i j :
  1 <= i -> i < j -> j < 1000 ->
  String.leb (base (Seed.seed_row (Z.of_nat i)))
             (base (Seed.seed_row (Z.of_nat j))) = true.
Proof.
  intros Hi Hij Hj. rewrite !seed_row_in_range by lia. cbn [base seeded_row].
  destruct (digits_below_1000 i) as (A1 & A2 & A3 & EA); [lia|].
  destruct (digits_below_1000 j) as (B1 & B2 & B3 & EB); [lia|].
  apply leb_base_of_digits; auto. lia.
Qed.

End FreshPoolFacts.

(** X20. A freshly seeded pool lists its codes in seeding order: for a
    range inside 1..999 the script's rows form a table with distinct
    bases whose available listing is the rows themselves, in the order of
    the loop; so the first assign-next on it hands out the code of the
    first seeded number. *)
Theorem X20_fresh_pool_lists_in_seed_order (start count : Z) :
  (1 <= start)%Z -> (start + count <= 1000)%Z ->
  let t := Seed.rows_from start count in
  List.length t = Z.to_nat count /\
  Pool.primary_key t /\
  Pool.pool_available t = map (fun r => (Pool.base r, Pool.checksum r)) t /\
  ((0 < count)%Z ->
   Pool.select_next_free t
   = Some (Pool.base (Seed.seed_row start), Pool.checksum (Seed.seed_row start))).
Proof.
  intros H1 H2 t.
  assert (EU : Pool.unallocated t = t).
  { unfold Pool.unallocated. apply forallb_filter_id. apply forallb_forall.
    intros r Hr. apply rows_from_In in Hr as (j & _ & ->). reflexivity. }
  assert (ES : Pool.order_by_base t = t).
  { rewrite order_by_base_sort. apply sort_with_sorted_id.
    unfold t, Seed.rows_from.
    apply StronglySorted_map_seq. intros i j Hi Hij Hj.
    unfold leb_base.
    replace (start + Z.of_nat i)%Z with (Z.of_nat (Z.to_nat start + i)) by lia.
    replace (start + Z.of_nat j)%Z with (Z.of_nat (Z.to_nat start + j)) by lia.
    apply seed_bases_ascend; lia. }
  split; [unfold t, Seed.rows_from; now rewrite length_map, length_seq|].
  split; [now apply rows_from_bases_distinct|]. split.
  - unfold Pool.pool_available. now rewrite EU, ES.
  - intros Hc. unfold Pool.select_next_free. rewrite EU, ES.
    unfold t, Seed.rows_from.
    destruct (Z.to_nat count) as [|n] eqn:En; [lia|].
    cbn [seq map]. now rewrite Z.add_0_r.
Qed.

Lemma X20_fresh_pool_lists_in_seed_order_witness :
  Pool.select_next_free (Seed.rows (Some "staging") None None)
  = Some ("300", "3") /\
  List.length (Seed.rows (Some "staging") None None) = 30.
Proof.
  destruct (X20_fresh_pool_lists_in_seed_order 300 30 ltac:(lia) ltac:(lia))
    as (HL & _ & _ & HS).
  split; [exact (HS ltac:(lia))|exact HL].
Defined.

(* ===================================================================== *)
(** * Further properties: the role cache *)
(* ===================================================================== *)

Section RoleCacheFacts.
Import RoleCache.

Lemma map_set_length k e m :
  List.length (map_set k e m)
  = if in_dec string_dec k (keys m) then List.length m else S (List.length m).
Proof.
  induction m as [|[k' e'] m IH]; [reflexivity|]. cbn [map_set keys map fst].
  destruct (String.eqb_spec k' k) as [E|N].
  - subst. destruct (in_dec string_dec k (k :: map fst m)) as [_|H];
      [reflexivity|elim H; now left].
  - cbn [List.length]. rewrite IH. fold (keys m).
    destruct (in_dec string_dec k (keys m)) as [H|H];
      destruct (in_dec string_dec k (k' :: keys m)) as [H'|H'];
      try reflexivity.
    + elim H'. now right.
    + destruct H' as [E|H']; [congruence|contradiction].
Qed.

Lemma map_set_keys k e m :
  keys (map_set k e m)
  = if in_dec string_dec k (keys m) then keys m else (keys m ++ [k])%list.
Proof.
  induction m as [|[k' e'] m IH]; [reflexivity|]. cbn [map_set keys map fst].
  destruct (String.eqb_spec k' k) as [E|N].
  - subst. destruct (in_dec string_dec k (k :: map fst m)) as [_|H];
      [reflexivity|elim H; now left].
  - cbn [map fst]. fold (keys (map_set k e m)). rewrite IH. fold (keys m).
    destruct (in_dec string_dec k (keys m)) as [H|H];
      destruct (in_dec string_dec k (k' :: keys m)) as [H'|H'];
      try reflexivity.
    + elim H'. now right.
    + destruct H' as [E|H']; [congruence|contradiction].
Qed.

Lemma map_set_NoDup k e m : NoDup (keys m) -> NoDup (keys (map_set k e m)).
Proof.
  intros H. rewrite map_set_keys.
  destruct (in_dec string_dec k (keys m)) as [Hin|Hin]; [assumption|].
  apply (Permutation_NoDup (Permutation_cons_append _ _)). now constructor.
Qed.

Lemma map_get_set k e m : map_get k (map_set k e m) = Some e.
Proof.
  induction m as [|[k' e'] m IH]; cbn [map_set map_get].
  - now rewrite String.eqb_refl.
  - destruct (String.eqb_spec k' k) as [E|N]; cbn [map_get].
    + now rewrite E, String.eqb_refl.
    + destruct (String.eqb_spec k' k); [contradiction|assumption].
Qed.

Lemma map_get_set_other k k' e m :
  k' <> k -> map_get k' (map_set k e m) = map_get k' m.
Proof.
  intros N. induction m as [|[k0 e0] m IH]; cbn [map_set map_get].
  - destruct (String.eqb_spec k k'); [congruence|reflexivity].
  - destruct (String.eqb_spec k0 k) as [E|N0]; cbn [map_get].
    + subst. destruct (String.eqb_spec k k'); [congruence|reflexivity].
    + now rewrite IH.
Qed.

Lemma map_get_delete_other k k' m :
  k' <> k -> map_get k' (map_delete k m) = map_get k' m.
Proof.
  intros N. unfold map_delete.
  induction m as [|[k0 e0] m IH]; [reflexivity|]. cbn [filter fst map_get].
  destruct (String.eqb_spec k0 k) as [E|N0]; cbn [negb map_get].
  - subst. destruct (String.eqb_spec k k'); [congruence|assumption].
  - now rewrite IH.
Qed.

Lemma map_delete_head k e m :
  NoDup (keys ((k, e) :: m)) -> map_delete k ((k, e) :: m) = m.
Proof.
  unfold map_delete. cbn [filter fst keys map]. rewrite String.eqb_refl.
  cbn [negb]. intros H. inversion H as [|? ? Hk _]; subst.
  apply forallb_filter_id. apply forallb_forall. intros [k' e'] Hin.
  cbn [fst]. apply negb_true_iff, String.eqb_neq. intros ->.
  apply Hk. change k with (fst (k, e')). now apply in_map.
Qed.

Lemma evict_keeps_NoDup m :
  NoDup (keys m) ->
  NoDup (keys (if _ROLE_MAX <? List.length m
               then match m with (k, _) :: _ => map_delete k m | [] => m end
               else m)).
Proof.
  intros H. destruct (_ROLE_MAX <? List.length m); [|assumption].
  destruct m as [|[k e] m]; [assumption|].
  rewrite map_delete_head by assumption.
  cbn [keys map] in H. now inversion H.
Qed.

Lemma get_after_set k v now now' m :
  _getRoleCache k now' (_setRoleCache k v now m)
  = (if (now' - now <? 60000)%Z then Some v else None).
Proof.
  unfold _getRoleCache, _setRoleCache. now rewrite map_get_set.
Qed.

End RoleCacheFacts.

(** X21. The role cache stays bounded, one entry above its nominal
    maximum: starting from at most 501 entries with distinct keys, a
    [_setRoleCache] leaves at most 501 entries with distinct keys; the
    eviction test is [size > 500], so a cache of exactly 500 entries takes
    a new key without evicting and reaches 501. *)
Theorem X21_role_cache_bound (userId : string) (v : bool) (now : Z)
    (m : RoleCache.cache) :
  NoDup (RoleCache.keys m) -> List.length m <= 501 ->
  NoDup (RoleCache.keys (RoleCache._setRoleCache userId v now m)) /\
  List.length (RoleCache._setRoleCache userId v now m) <= 501 /\
  (List.length m = 500 -> ~ In userId (RoleCache.keys m) ->
   List.length (RoleCache._setRoleCache userId v now m) = 501).
Proof.
  intros HN HL. unfold RoleCache._setRoleCache. split; [|split].
  - apply map_set_NoDup. now apply evict_keeps_NoDup.
  - rewrite map_set_length. unfold RoleCache._ROLE_MAX.
    destruct (Nat.ltb_spec 500 (List.length m)) as [Hbig|Hsmall].
    + destruct m as [|[k e] m]; [cbn in Hbig; lia|].
      rewrite map_delete_head by assumption. cbn [List.length] in HL.
      destruct (in_dec string_dec userId (RoleCache.keys m)); lia.
    + destruct (in_dec string_dec userId (RoleCache.keys m)); lia.
  - intros H500 Hnew. rewrite map_set_length. unfold RoleCache._ROLE_MAX.
    destruct (Nat.ltb_spec 500 (List.length m)) as [Hbig|Hsmall]; [lia|].
    destruct (in_dec string_dec userId (RoleCache.keys m)); [contradiction|lia].
Qed.

Lemma X21_role_cache_bound_witness :
  let m := map (fun i => (JS.String_of_nat i, RoleCache.mkEntry true 0))
               (seq 0 500) in
  List.length (RoleCache._setRoleCache "u" false 7 m) = 501 /\
  List.length (RoleCache._setRoleCache "w" false 9
                 (RoleCache._setRoleCache "u" false 7 m)) = 501.
Proof.
  intros m.
  assert (HN : NoDup (RoleCache.keys m)).
  { apply (NoDup_map_inv (fun s => Z.to_nat (Sql.int_of_text s))).
    replace (map (fun s => Z.to_nat (Sql.int_of_text s)) (RoleCache.keys m))
      with (seq 0 500) by (vm_compute; reflexivity).
    apply seq_NoDup. }
  assert (Hu : ~ In "u" (RoleCache.keys m)).
  { intros Hin.
    assert (F : forallb (fun k => negb (k =? "u")%string) (RoleCache.keys m)
                = true) by (vm_compute; reflexivity).
    rewrite forallb_forall in F. specialize (F _ Hin).
    now rewrite String.eqb_refl in F. }
  assert (HL : List.length m = 500) by (vm_compute; reflexivity).
  destruct (X21_role_cache_bound "u" false 7 m HN ltac:(lia)) as (_ & _ & H).
  split; [exact (H HL Hu)|]. vm_compute. reflexivity.
Defined.

(** X22. Reading the role cache after a write: the key just written reads
    as the written value for less than 60000 ms after the write and as
    absent from then on; another key reads as before, unless the write
    evicted it, which happens exactly to the oldest key of a cache of more
    than 500 entries. *)
Theorem X22_role_cache_read_after_write (k k' : string) (v : bool)
    (now now' : Z) (m : RoleCache.cache) :
  RoleCache._getRoleCache k now' (RoleCache._setRoleCache k v now m)
  = (if (now' - now <? 60000)%Z then Some v else None) /\
  (NoDup (RoleCache.keys m) -> k' <> k ->
   (List.length m <= 500 \/ hd_error (RoleCache.keys m) <> Some k') ->
   RoleCache._getRoleCache k' now' (RoleCache._setRoleCache k v now m)
   = RoleCache._getRoleCache k' now' m) /\
  (NoDup (RoleCache.keys m) -> k' <> k ->
   500 < List.length m -> hd_error (RoleCache.keys m) = Some k' ->
   RoleCache._getRoleCache k' now' (RoleCache._setRoleCache k v now m) = None).
Proof.
  unfold RoleCache._getRoleCache, RoleCache._setRoleCache, RoleCache._ROLE_MAX.
  split; [|split].
  - now rewrite map_get_set.
  - intros HN Hk Hcase. rewrite map_get_set_other by assumption.
    destruct (Nat.ltb_spec 500 (List.length m)) as [Hbig|Hsmall];
      [|reflexivity].
    destruct m as [|[k0 e0] m]; [reflexivity|].
    destruct Hcase as [H|H]; [lia|].
    rewrite map_get_delete_other; [reflexivity|].
    intros ->. now apply H.
  - intros HN Hk Hbig Hhd. rewrite map_get_set_other by assumption.
    apply Nat.ltb_lt in Hbig. rewrite Hbig.
    destruct m as [|[k0 e0] m]; [discriminate Hhd|].
    cbn in Hhd. injection Hhd as ->.
    rewrite map_delete_head by assumption.
    cbn [RoleCache.keys map fst] in HN. inversion HN as [|? ? Hnot _]; subst.
    destruct (RoleCache.map_get k' m) as [e|] eqn:G; [|reflexivity].
    exfalso. apply Hnot. clear -G.
    induction m as [|[k1 e1] m IH]; [discriminate|]. cbn [RoleCache.map_get] in G.
    cbn [map fst]. destruct (String.eqb_spec k1 k') as [->|N];
      [now left|right; now apply IH].
Qed.

Lemma X22_role_cache_read_after_write_witness :
  let m := RoleCache._setRoleCache "alice" true 1000 [] in
  RoleCache._getRoleCache "alice" 60999 m = Some true /\
  RoleCache._getRoleCache "alice" 61000 m = None /\
  RoleCache._getRoleCache "alice" 2000
    (RoleCache._setRoleCache "bob" false 1500 m) = Some true.
Proof.
  intros m. split; [|split].
  - exact (proj1 (X22_role_cache_read_after_write "alice" "bob" true
                    1000 60999 [])).
  - exact (proj1 (X22_role_cache_read_after_write "alice" "bob" true
                    1000 61000 [])).
  - refine (proj1 (proj2 (X22_role_cache_read_after_write "bob" "alice" false
                            1500 2000 m)) _ _ _).
    + repeat constructor. intros [].
    + discriminate.
    + left. cbn. lia.
Defined.

(** X23. [isSaccoAdmin] remembers its answer for a minute.  After a call
    that missed the cache and stored its answer at time [later], a call
    made less than 60000 ms after [later] returns that answer without
    sending the query, whatever the database would now say (a call that
    threw is remembered as [false]); from 60000 ms on the query is sent
    again and its answer returned. *)
Theorem X23_isSaccoAdmin_memo (userId : string) (now later now2 later2 : Z)
    (q q2 : RoleCache.query_outcome) (m : RoleCache.cache) :
  RoleCache._getRoleCache userId now m = None ->
  let answer := fun q => match q with
                         | RoleCache.Resolved ok => ok
                         | RoleCache.Threw => false
                         end in
  let first := RoleCache.isSaccoAdmin userId now later q m in
  fst first = (answer q, RoleCache._setRoleCache userId (answer q) later m) /\
  snd first = true /\
  ((now2 - later < 60000)%Z ->
   RoleCache.isSaccoAdmin userId now2 later2 q2 (snd (fst first))
   = (answer q, snd (fst first), false)) /\
  ((60000 <= now2 - later)%Z ->
   RoleCache.isSaccoAdmin userId now2 later2 q2 (snd (fst first))
   = (answer q2,
      RoleCache._setRoleCache userId (answer q2) later2 (snd (fst first)),
      true)).
Proof.
  intros Hmiss answer first.
  assert (E : first = (answer q,
                       RoleCache._setRoleCache userId (answer q) later m, true)).
  { unfold first, RoleCache.isSaccoAdmin. rewrite Hmiss. now destruct q. }
  rewrite E. cbn [fst snd]. split; [reflexivity|]. split; [reflexivity|].
  pose proof (get_after_set userId (answer q) later now2 m) as G.
  split; intros Ht; unfold RoleCache.isSaccoAdmin; rewrite G.
  - apply Z.ltb_lt in Ht. now rewrite Ht.
  - apply Z.ltb_ge in Ht. rewrite Ht. now destruct q2.
Qed.

Lemma X23_isSaccoAdmin_memo_witness :
  let first := RoleCache.isSaccoAdmin "alice" 0 5 (RoleCache.Resolved true) [] in
  RoleCache.isSaccoAdmin "alice" 60004 60010 (RoleCache.Resolved false)
    (snd (fst first))
  = (true, snd (fst first), false) /\
  fst (fst (RoleCache.isSaccoAdmin "alice" 60005 60010 (RoleCache.Resolved false)
              (snd (fst first)))) = false.
Proof.
  intros first.
  destruct (X23_isSaccoAdmin_memo "alice" 0 5 60004 60010
              (RoleCache.Resolved true) (RoleCache.Resolved false) [] eq_refl)
    as (_ & _ & H & _).
  split; [exact (H ltac:(lia))|].
  destruct (X23_isSaccoAdmin_memo "alice" 0 5 60005 60010
              (RoleCache.Resolved true) (RoleCache.Resolved false) [] eq_refl)
    as (_ & _ & _ & H').
  unfold first. now rewrite (H' ltac:(lia)).
Defined.

(* ===================================================================== *)
(** * Further properties: the in-memory books *)
(* ===================================================================== *)

(** X24. The listing of a book: the rows listed are rows of the book of
    the requested day, newest first (the listing, reversed, is the tail
    of the day's rows in insertion order); with a numeric [limit] at most
    [max(limit, 1)] and never more than 200 rows are listed, and as many
    as the day has when it has fewer; when [limit] does not parse to a
    number the cap is lost and all the rows of the day are listed. *)
Theorem X24_book_listing (P : Type) (parsed : option Z) (date : JS.field)
    (today : string) (book : list (Book.row P)) :
  let day := Book.day_of date today in
  let of_day := filter (fun r => Book._isSameDay (Book.created_at r) day) book in
  let listed := Book.list_rows parsed date today book in
  (forall r, In r listed ->
             In r book /\ Book._isSameDay (Book.created_at r) day = true) /\
  (exists older, of_day = (older ++ rev listed)%list) /\
  (forall n, parsed = Some n ->
             List.length listed
             = Nat.min (List.length of_day) (Z.to_nat (Z.min (Z.max n 1) 200)) /\
             List.length listed <= 200) /\
  (parsed = None -> listed = rev of_day).
Proof.
  intros day of_day listed. unfold listed, Book.list_rows.
  fold day. fold of_day.
  assert (S : exists k, Book.slice_from (option_map Z.opp (Book.limit_of parsed))
                          of_day = skipn k of_day /\
                        (forall n, parsed = Some n ->
                           k = List.length of_day
                               - Z.to_nat (Z.min (Z.max n 1) 200)) /\
                        (parsed = None -> k = 0)).
  { destruct parsed as [n|]; cbn [Book.limit_of option_map Book.slice_from].
    - destruct (Z.ltb_spec (- Z.min (Z.max n 1) 200) 0); [|lia].
      eexists. split; [reflexivity|]. split; [|discriminate].
      intros n' E. injection E as <-. now rewrite Z.opp_involutive.
    - exists 0. split; [reflexivity|]. split; [discriminate|reflexivity]. }
  destruct S as (k & -> & Hk & Hnan). split; [|split; [|split]].
  - intros r Hr. apply in_rev in Hr.
    assert (Hr' : In r of_day).
    { rewrite <- (firstn_skipn k of_day). apply in_or_app. now right. }
    now apply filter_In in Hr'.
  - exists (firstn k of_day). now rewrite rev_involutive, firstn_skipn.
  - intros n E. rewrite length_rev, length_skipn, (Hk n E). split; lia.
  - intros E. now rewrite (Hnan E).
Qed.

Lemma X24_book_listing_witness :
  let book := [Book.mkRow "2024-05-01T08:00:00.000Z" 1;
               Book.mkRow "2024-05-02T09:00:00.000Z" 2;
               Book.mkRow "2024-05-02T10:00:00.000Z" 3;
               Book.mkRow "2024-05-02T11:00:00.000Z" 4] in
  List.length (Book.list_rows (Some 2%Z) (Some "2024-05-02") "2024-05-03" book)
  = 2 /\
  map Book.rest
    (Book.list_rows (Some 2%Z) (Some "2024-05-02") "2024-05-03" book) = [4; 3] /\
  map Book.rest
    (Book.list_rows None (Some "2024-05-02") "2024-05-03" book) = [4; 3; 2].
Proof.
  intros book.
  destruct (X24_book_listing nat (Some 2%Z) (Some "2024-05-02") "2024-05-03" book)
    as (_ & _ & H & _).
  split; [exact (proj1 (H 2%Z eq_refl))|]. split; reflexivity.
Defined.


